(** * FormEngine core: validator resolver and reactive field container

    A shallow embedding of
    - [features/validation/utils/validatorsResolver.tsx]
      ([byPriority], [noOpValidator], [parse], [validatorsResolver]) and
    - the [SimpleField] class (constructor, [dispose], [setError] and the
      getters the constructor reads),
    together with the properties of the specification that concern them. *)

From Stdlib Require Import ZArith List String Lia.
From stdpp Require Import base option list strings gmap fin_maps.

Local Open Scope string_scope.
Local Open Scope Z_scope.
Local Open Scope list_scope.

(** ** JavaScript values *)

Module Js.

(** The values that flow through the field and the validators.  Only the
    tag of a number is ever inspected by the code below, so its payload is
    an integer; an object is known by its reference. *)
Inductive JsVal : Type :=
| JUndefined
| JNull
| JBool (b : bool)
| JNum (n : Z)
| JStr (s : string)
| JObj (ref : nat).

#[global] Instance JsVal_eq_dec : EqDecision JsVal.
Proof. solve_decision. Defined.

(** [typeof v] *)
Definition typeof (v : JsVal) : string :=
  match v with
  | JUndefined => "undefined"
  | JNull => "object"
  | JBool _ => "boolean"
  | JNum _ => "number"
  | JStr _ => "string"
  | JObj _ => "object"
  end.

(** [a ?? b] *)
Definition nullish (a b : JsVal) : JsVal :=
  match a with
  | JUndefined | JNull => b
  | _ => a
  end.

(** [v === true] *)
Definition is_true (v : JsVal) : bool :=
  match v with
  | JBool true => true
  | _ => false
  end.

(** Truthiness of an optional string property: [undefined] and the empty
    string are falsy. *)
Definition truthy_str (o : option string) : bool :=
  match o with
  | Some s => negb (String.eqb s "")
  | None => false
  end.

(** [`${o}`] for an optional string property. *)
Definition template (o : option string) : string :=
  match o with
  | Some s => s
  | None => "undefined"
  end.

(** What a JavaScript call can raise. *)
Inductive Exn : Type :=
| TypeError (what : string)
| Error (msg : string).

(** The outcome of running a piece of code: a value or a raised exception. *)
Inductive Completion (A : Type) : Type :=
| Normal (a : A)
| Throw (e : Exn).
Arguments Normal {A} a.
Arguments Throw {A} e.

End Js.
Export Js.

(** ** [Array.prototype.sort]

    The array method is the engine's, not the repository's.  For a comparator
    that is not a consistent ordering ECMAScript leaves the resulting order to
    the engine, so the two strategies the V8 engine has shipped are embedded:
    both are exact for arrays shorter than 64 (resp. 11) elements, the only
    lengths they are evaluated at below. *)

Module ArraySort.
Section Engines.
Context {A : Type}.
Variable comparefn : A -> A -> Z.

(** *** V8 from 7.0 on ([array-sort.tq]): one run, completed by binary
  insertion. *)

(** The scan of [CountAndMakeRun]: how far the run that ends in
  [previousElement] extends into [rest]. *)
Fixpoint extendRun (isDescending : bool) (previousElement : A) (rest : list A)
: list A * list A :=
match rest with
| [] => ([], [])
| currentElement :: rest' =>
    let order := comparefn currentElement previousElement in
    if (if isDescending then 0 <=? order else order <? 0)
    then ([], rest)
    else let '(run, remaining) := extendRun isDescending currentElement rest' in
         (currentElement :: run, remaining)
end.

(** [CountAndMakeRun]: the leading run, reversed when it is strictly
  descending, and the elements that follow it. *)
Definition CountAndMakeRun (work : list A) : list A * list A :=
match work with
| [] => ([], [])
| [x] => ([x], [])
| elementHigh :: elementLow :: rest =>
    let order := comparefn elementLow elementHigh in
    let isDescending := order <? 0 in
    let '(run, remaining) := extendRun isDescending elementLow rest in
    let whole := elementHigh :: elementLow :: run in
    (if isDescending then rev whole else whole, remaining)
end.

(** The binary search of [BinaryInsertionSort]; the interval halves at each
  round, so [length work] rounds are more than enough. *)
Fixpoint searchSlot (rounds : nat) (work : list A) (pivot : A) (left right : nat)
: nat :=
match rounds with
| O => left
| S rounds' =>
    if (left <? right)%nat then
      let mid := (left + (right - left) / 2)%nat in
      match work !! mid with
      | Some midElement =>
          if comparefn pivot midElement <? 0
          then searchSlot rounds' work pivot left mid
          else searchSlot rounds' work pivot (S mid) right
      | None => left
      end
    else left
end.

Definition insertAt (work : list A) (left : nat) (pivot : A) : list A :=
take left work ++ pivot :: drop left work.

Definition BinaryInsertionSort (run rest : list A) : list A :=
fold_left
  (fun work pivot =>
     insertAt work (searchSlot (S (length work)) work pivot 0 (length work)) pivot)
  rest run.

Definition ArrayTimSort (array : list A) : list A :=
if (length array <? 2)%nat then array
else let '(run, rest) := CountAndMakeRun array in
     BinaryInsertionSort run rest.

(** *** V8 before 7.0 ([array.js], arrays of at most 10 elements): plain
  insertion sort, the comparator receiving the earlier element first. *)

(** [sortedRev] is the sorted prefix, last element first. *)
Fixpoint insertBackwards (sortedRev : list A) (element : A) : list A :=
match sortedRev with
| [] => [element]
| tmp :: before =>
    if 0 <? comparefn tmp element
    then tmp :: insertBackwards before element
    else element :: sortedRev
end.

Definition InsertionSort (array : list A) : list A :=
rev (fold_left insertBackwards array []).

End Engines.
End ArraySort.

(** ** The validator resolver ([validatorsResolver.tsx]) *)

Module Resolver.

(** The argument object of a rule, [Record<string, unknown>]. *)
Abbreviation Args := (gmap string JsVal).

(** [ValidationRuleSettings]; an absent [validateWhen] is [JUndefined]. *)
Record ValidationRuleSettings : Type := mkSettings {
  key : string;
  type : option string;
  args : option Args;
  validateWhen : JsVal
}.

(** [ValidationRuleParameter]: [param.key] and [param.default]. *)
Record ValidationRuleParameter : Type := mkParam {
  param_key : string;
  param_default : JsVal
}.

(** What a [RuleValidator] hands back: a value, or a promise of one. *)
Inductive RuleReturn : Type :=
| Plain (v : JsVal)
| Promise (v : JsVal).

Definition isPromise (r : RuleReturn) : bool :=
  match r with
  | Promise _ => true
  | Plain _ => false
  end.

(** [isPromise(result) ? await result : result] *)
Definition settle (result : RuleReturn) : JsVal :=
  match result with
  | Promise v => v
  | Plain v => v
  end.

(** [RuleValidator]: [(value, store, args, formData) => result]. *)
Definition RuleValidator : Type := JsVal -> JsVal -> Args -> JsVal -> RuleReturn.

(** An entry of the built-in registry. *)
Record InternalRule : Type := mkInternal {
  validatorFactory : Args -> RuleValidator;
  params : option (list ValidationRuleParameter)
}.

(** An entry of the custom registry. *)
Record CustomRule : Type := mkCustom {
  validate : RuleValidator;
  custom_params : option (list ValidationRuleParameter)
}.

(** [FormViewerValidationRules] *)
Record FormViewerValidationRules : Type := mkRules {
  internal : gmap string InternalRule;
  custom : option (gmap string CustomRule)
}.

(** [BoundValueSchema] *)
Record BoundValueSchema : Type := mkSchema {
  validations : option (list ValidationRuleSettings);
  autoValidate : option bool
}.

Record ValidatorWithSettings : Type := mkResolved {
  settings : ValidationRuleSettings;
  validator : RuleValidator;
  resolved_params : option (list ValidationRuleParameter)
}.

Record ValidationResult : Type := mkResult {
  result_settings : ValidationRuleSettings;
  message : JsVal
}.

(** *** Resolution: console output and exceptions *)

(** A computation that writes to the console and may throw. *)
Definition Console (A : Type) : Type := list string * Completion A.

Definition ret {A} (a : A) : Console A := ([], Normal a).
Definition raise {A} (e : Exn) : Console A := ([], Throw e).
Definition console_warn (line : string) : Console unit := ([line], Normal tt).

Definition bind {A B} (m : Console A) (k : A -> Console B) : Console B :=
  match m with
  | (out, Normal a) => let '(out', r) := k a in ((out ++ out')%list, r)
  | (out, Throw e) => (out, Throw e)
  end.

#[local] Notation "x <- m ;; k" := (bind m (fun x => k))
  (at level 100, m at next level, right associativity).
#[local] Notation "m ;;; k" := (bind m (fun _ => k))
  (at level 100, right associativity).

(** [array.map(f)] for an [f] that may throw: left to right, abandoned at
    the first exception. *)
Fixpoint mapM {A B} (f : A -> Console B) (l : list A) : Console (list B) :=
  match l with
  | [] => ret []
  | a :: l' => b <- f a ;; bs <- mapM f l' ;; ret (b :: bs)
  end.

Definition byPriority (_ b : ValidationRuleSettings) : Z :=
  if String.eqb (key b) "code" then -1
  else if String.eqb (key b) "required" then 1
  else 0.

Definition noOpValidator : RuleValidator := fun _ _ _ _ => Plain (JBool true).

Definition warning (rule : ValidationRuleSettings) : string :=
  ("Cannot find rule, key: '" ++ key rule ++ "', type: '" ++ template (type rule) ++ "'")%string.

(** Reading [definition.validatorFactory] when [definition] is
    [undefined]. *)
Definition missingDefinition : Exn :=
  TypeError "Cannot read properties of undefined (reading 'validatorFactory')".

Definition toValidator (validationRules : FormViewerValidationRules)
    (rule : ValidationRuleSettings) : Console ValidatorWithSettings :=
  if negb (truthy_str (type rule)) then
    match internal validationRules !! key rule with
    | Some definition =>
        let validator := validatorFactory definition (default ∅ (args rule)) in
        ret (mkResolved rule validator (params definition))
    | None =>
        raise missingDefinition
    end
  else
    let fallback :=
      console_warn (warning rule) ;;;
      ret (mkResolved rule noOpValidator None) in
    if bool_decide (type rule = Some "custom") then
      match custom validationRules ≫= (fun registry => registry !! key rule) with
      | Some definition =>
          ret (mkResolved rule (validate definition) (custom_params definition))
      | None => fallback
      end
    else fallback.

Section Parse.
(** The engine's [Array.prototype.sort]. *)
Variable sort : (ValidationRuleSettings -> ValidationRuleSettings -> Z) ->
                list ValidationRuleSettings -> list ValidationRuleSettings.

Definition parse (validationRules : FormViewerValidationRules)
    (schema : option BoundValueSchema)
  : Console (option (list ValidatorWithSettings)) :=
  match schema with
  | None => ret None
  | Some schema =>
      match validations schema with
      | None => ret None
      | Some [] => ret None
      | Some validations =>
          let rules := sort byPriority validations in
          resolved <- mapM (toValidator validationRules) rules ;;
          ret (Some resolved)
      end
  end.
End Parse.

(** *** Evaluation: the function [validatorsResolver] returns *)

(** [getFormData] is an optional function; its successive results are the
    snapshots of the form data, indexed by the number of earlier calls. *)
Definition FormDataSource : Type := option (nat -> JsVal).

(** [getFormData?.()], as the call number [n] of the pass. *)
Definition formDataAt (getFormData : FormDataSource) (n : nat) : JsVal :=
  match getFormData with
  | Some snapshot => snapshot n
  | None => JUndefined
  end.

(** One call of a resolved validator, with the four arguments it received. *)
Record Invocation : Type := mkInvocation {
  callee : ValidatorWithSettings;
  with_value : JsVal;
  with_store : JsVal;
  with_args : Args;
  with_formData : JsVal
}.

(** The state of one pass over the pipeline: how many snapshots of the form
    data were taken, the [validationResults] array, and the calls made. *)
Record Pass : Type := mkPass {
  snapshots : nat;
  validationResults : list ValidationResult;
  invocations : list Invocation
}.

Definition start : Pass := mkPass 0 [] [].

(** Taking one snapshot and nothing else. *)
Definition tick (p : Pass) : Pass :=
  mkPass (S (snapshots p)) (validationResults p) (invocations p).

(** [params?.filter(param => typeof param.default !== 'undefined')
           .map(param => args[param.key] = param.default)] *)
Definition assignDefaults (params : option (list ValidationRuleParameter))
    (args : Args) : Args :=
  match params with
  | None => args
  | Some params =>
      fold_left
        (fun args param => <[param_key param := param_default param]> args)
        (List.filter
           (fun param => negb (String.eqb (typeof (param_default param)) "undefined"))
           params)
        args
  end.

(** [Object.assign(target, source)]: every own property of [source] is
    written over [target]; an [undefined] source writes nothing. *)
Definition Object_assign (target : Args) (source : option Args) : Args :=
  match source with
  | Some source => source ∪ target
  | None => target
  end.

(** [typeof ruleResult === 'string' ? ruleResult : args.message] *)
Definition messageOf (ruleResult : JsVal) (args : Args) : JsVal :=
  if String.eqb (typeof ruleResult) "string" then ruleResult
  else default JUndefined (args !! "message").

Section Evaluate.
(** [needValidate] of [utils/needValidate]: does the [validateWhen]
    condition hold on the form data. *)
Variable needValidate : JsVal -> JsVal -> bool.

Variables (value store : JsVal) (getFormData : FormDataSource).

(** The body of the [for ... of validators] loop. *)
Definition iteration (p : Pass) (entry : ValidatorWithSettings) : Pass :=
  let args : Args := ∅ in
  let formData := formDataAt getFormData (snapshots p) in
  let p := tick p in
  if negb (needValidate (validateWhen (settings entry)) formData) then p
  else
    let args := assignDefaults (resolved_params entry) args in
    let args := Object_assign args (Resolver.args (settings entry)) in
    let formData := formDataAt getFormData (snapshots p) in
    let p := tick p in
    let result := validator entry value store args formData in
    let ruleResult := settle result in
    let called := mkInvocation entry value store args formData in
    let p := mkPass (snapshots p) (validationResults p) (invocations p ++ [called]) in
    if negb (is_true ruleResult) then
      mkPass (snapshots p)
             (validationResults p ++ [mkResult (settings entry) (messageOf ruleResult args)])
             (invocations p)
    else p.

Definition evaluate (validators : list ValidatorWithSettings) (p : Pass) : Pass :=
  fold_left iteration validators p.

(** What the returned promise resolves to ([None] is [undefined]), and the
    validator calls that were made on the way. *)
Definition resolved (validators : option (list ValidatorWithSettings))
  : option (list ValidationResult) * list Invocation :=
  match validators with
  | None => (None, [])
  | Some validators =>
      let p := evaluate validators start in
      (Some (validationResults p), invocations p)
  end.
End Evaluate.

(** [ResolvedValidator]: [(value, store, getFormData) => Promise<...>]. *)
Definition ResolvedValidator : Type :=
  JsVal -> JsVal -> FormDataSource -> option (list ValidationResult) * list Invocation.

Definition validatorsResolver
    (sort : (ValidationRuleSettings -> ValidationRuleSettings -> Z) ->
            list ValidationRuleSettings -> list ValidationRuleSettings)
    (needValidate : JsVal -> JsVal -> bool)
    (validationRules : FormViewerValidationRules) (schema : option BoundValueSchema)
  : Console ResolvedValidator :=
  validators <- parse sort validationRules schema ;;
  ret (fun value store getFormData =>
         resolved needValidate value store getFormData validators).

End Resolver.

(** ** The reactive field container ([SimpleField]) *)

Module SimpleField.

(** *** Collaborators *)

(** A property of the component store; only its [value] is read here. *)
Record ComponentProperty : Type := mkProperty {
  prop_value : JsVal;
  prop_source : JsVal
}.

Record Model : Type := mkModel {
  model_valued : option string;
  model_valueType : option string;
  defaultProps : option (gmap string JsVal)
}.

Record ComponentStore : Type := mkStore {
  store_key : string;
  props : gmap string ComponentProperty
}.

Record ComponentData : Type := mkData {
  model : Model;
  store : ComponentStore;
  dataRoot : JsVal
}.

(** *** The field *)

(** The three functions the constructor collects in [#disposers]: the
    disposer [autorun] returns, the closure
    [() => this.dataValidator?.dispose()], and the disposer [reaction]
    returns. *)
Inductive Disposer : Type :=
| StopAutorun
| DisposeValidator
| StopReaction.

#[global] Instance Disposer_eq_dec : EqDecision Disposer.
Proof. solve_decision. Defined.

(** The constructor's parameter properties. *)
Record Params : Type := mkParams {
  componentData : ComponentData;
  calculateValue : ComponentStore -> string -> JsVal * JsVal;
  getInitialData : unit -> JsVal
}.

(** The instance.  A Data Validator is known by the number the factory
    created it under; a property not assigned yet is [None]. *)
Record Field : Type := mkField {
  params : Params;
  deferFieldCalculation : bool;
  oldDataValidator : option nat;
  error : JsVal;
  touched : bool;
  value : JsVal;
  valued : option string;
  valueType : option string;
  dataValidator : option nat;
  disposers : list Disposer
}.

(** [this.componentStore] and [this.model], read-only copies of the two
    parts of [componentData]. *)
Definition componentStore (f : Field) : ComponentStore := store (componentData (params f)).
Definition this_model (f : Field) : Model := model (componentData (params f)).

(** What happens around the field, in order. *)
Inductive Event : Type :=
| MadeObservable
| ValueSeeded (v : JsVal)
| AutorunCreated
| ReactionCreated
| ValidatorCreated (id : nat) (tracked : bool)
| ValidatorAssigned (id : nat)
| ValidatorDisposed (id : nat) (tracked : bool)
| DisposerCalled (d : Disposer)
| AutorunStopped
| ReactionStopped.

#[global] Instance Event_eq_dec : EqDecision Event.
Proof. solve_decision. Defined.

(** The field, the reactive runtime around it, and the record of events. *)
Record World : Type := mkWorld {
  this : Field;
  created : nat;          (* validators the factory has made so far *)
  autorunActive : bool;
  reactionActive : bool;
  tracking : bool;        (* running inside a tracked derivation *)
  log : list Event
}.

(** Stateful code that may throw. *)
Definition M (A : Type) : Type := World -> Completion A * World.

Definition ret {A} (a : A) : M A := fun w => (Normal a, w).
Definition throw {A} (e : Exn) : M A := fun w => (Throw e, w).
Definition bind {A B} (m : M A) (k : A -> M B) : M B :=
  fun w => match m w with
           | (Normal a, w') => k a w'
           | (Throw e, w') => (Throw e, w')
           end.

#[local] Notation "x <- m ;; k" := (bind m (fun x => k))
  (at level 100, m at next level, right associativity).
#[local] Notation "m ;;; k" := (bind m (fun _ => k))
  (at level 100, right associativity).

Definition get : M Field := fun w => (Normal (this w), w).

Definition update (g : Field -> Field) : M unit :=
  fun w => (Normal tt,
            mkWorld (g (this w)) (created w) (autorunActive w) (reactionActive w)
                    (tracking w) (log w)).

Definition emit (e : Event) : M unit :=
  fun w => (Normal tt,
            mkWorld (this w) (created w) (autorunActive w) (reactionActive w)
                    (tracking w) (log w ++ [e])).

Definition isTracking : M bool := fun w => (Normal (tracking w), w).

Definition setTracking (b : bool) : M unit :=
  fun w => (Normal tt,
            mkWorld (this w) (created w) (autorunActive w) (reactionActive w) b (log w)).

Definition setAutorunActive (b : bool) : M unit :=
  fun w => (Normal tt,
            mkWorld (this w) (created w) b (reactionActive w) (tracking w) (log w)).

Definition setReactionActive (b : bool) : M unit :=
  fun w => (Normal tt,
            mkWorld (this w) (created w) (autorunActive w) b (tracking w) (log w)).

(** Assignments to the instance. *)
Definition set_value (v : JsVal) (f : Field) : Field :=
  mkField (params f) (deferFieldCalculation f) (oldDataValidator f) (error f)
          (touched f) v (valued f) (valueType f) (dataValidator f) (disposers f).
Definition set_error (e : JsVal) (f : Field) : Field :=
  mkField (params f) (deferFieldCalculation f) (oldDataValidator f) e
          (touched f) (value f) (valued f) (valueType f) (dataValidator f) (disposers f).
Definition set_binding (k t : option string) (f : Field) : Field :=
  mkField (params f) (deferFieldCalculation f) (oldDataValidator f) (error f)
          (touched f) (value f) k t (dataValidator f) (disposers f).
Definition set_dataValidator (v : option nat) (f : Field) : Field :=
  mkField (params f) (deferFieldCalculation f) (oldDataValidator f) (error f)
          (touched f) (value f) (valued f) (valueType f) v (disposers f).
Definition set_oldDataValidator (v : option nat) (f : Field) : Field :=
  mkField (params f) (deferFieldCalculation f) v (error f)
          (touched f) (value f) (valued f) (valueType f) (dataValidator f) (disposers f).
Definition set_disposers (ds : list Disposer) (f : Field) : Field :=
  mkField (params f) (deferFieldCalculation f) (oldDataValidator f) (error f)
          (touched f) (value f) (valued f) (valueType f) (dataValidator f) ds.

(** [array.forEach(body)] *)
Fixpoint forEach {A} (l : list A) (body : A -> M unit) : M unit :=
  match l with
  | [] => ret tt
  | a :: l' => body a ;;; forEach l' body
  end.

(** *** The reactive runtime (MobX), as far as the field relies on it *)

(** [untracked(body)]: [body] runs outside the tracked derivation. *)
Definition untracked {A} (body : M A) : M A :=
  was <- isTracking ;;
  setTracking false ;;;
  r <- body ;;
  setTracking was ;;;
  ret r.

(** A derivation runs its body tracked. *)
Definition runTracked (body : M unit) : M unit :=
  was <- isTracking ;;
  setTracking true ;;;
  body ;;;
  setTracking was.

(** [autorun(body)]: subscribes, runs [body] once at once, and returns the
    disposer of the subscription. *)
Definition autorun (body : M unit) : M Disposer :=
  setAutorunActive true ;;;
  emit AutorunCreated ;;;
  runTracked body ;;;
  ret StopAutorun.

(** [reaction(selector, effect)]: subscribes and returns the disposer; the
    effect is not run at creation. *)
Definition reaction : M Disposer :=
  setReactionActive true ;;;
  emit ReactionCreated ;;;
  ret StopReaction.

(** The disposer of a subscription stops it once and is a no-op after. *)
Definition stopAutorun : M unit :=
  fun w => if autorunActive w
           then (setAutorunActive false ;;; emit AutorunStopped) w
           else (Normal tt, w).

Definition stopReaction : M unit :=
  fun w => if reactionActive w
           then (setReactionActive false ;;; emit ReactionStopped) w
           else (Normal tt, w).

(** *** Data Validators *)

(** [this.createDataValidator(componentData, this.valueType, sink)]: the
    factory hands out a new validator at every call; what it reads is
    tracked when the call is. *)
Definition createDataValidator : M nat :=
  fun w => (Normal (created w),
            mkWorld (this w) (S (created w)) (autorunActive w) (reactionActive w)
                    (tracking w) (log w ++ [ValidatorCreated (created w) (tracking w)])).

(** [validator.dispose()] *)
Definition disposeValidator (id : nat) : M unit :=
  tracked <- isTracking ;;
  emit (ValidatorDisposed id tracked).

(** [validator?.dispose()] *)
Definition disposeIfAny (v : option nat) : M unit :=
  match v with
  | Some id => disposeValidator id
  | None => ret tt
  end.

(** *** The [setValidator] autorun *)

(** The body of the [setValidator] autorun. *)
Definition setValidator : M unit :=
  fresh <- createDataValidator ;;
  update (set_dataValidator (Some fresh)) ;;;
  emit (ValidatorAssigned fresh) ;;;
  untracked (
    f <- get ;;
    disposeIfAny (oldDataValidator f) ;;;
    f <- get ;;
    update (set_oldDataValidator (dataValidator f))).

(** A later run of the [setValidator] autorun, when something it read has
    changed; a stopped autorun does not run. *)
Definition rerun : M unit :=
  fun w => if autorunActive w then runTracked setValidator w else (Normal tt, w).

(** *** Getters and constructor *)

Section Methods.
(** [isComputedProperty] of [stores/ComponentStore]. *)
Variable isComputedProperty : option ComponentProperty -> bool.

(** [this.valued] used as a property key. *)
Definition boundKey (f : Field) : string := template (valued f).

Definition defaultValue (f : Field) : JsVal :=
  match defaultProps (this_model f) with
  | Some defaults => default JUndefined (defaults !! boundKey f)
  | None => JUndefined
  end.

Definition initialValue (f : Field) : JsVal :=
  nullish
    (match props (componentStore f) !! boundKey f with
     | Some property => prop_value property
     | None => JUndefined
     end)
    (defaultValue f).

Definition initialDataValue (f : Field) : JsVal :=
  nullish (getInitialData (params f) tt) (initialValue f).

Definition computedValue (f : Field) : JsVal :=
  if deferFieldCalculation f then initialDataValue f
  else snd (calculateValue (params f) (componentStore f) (boundKey f)).

Definition isComputed (f : Field) : bool :=
  isComputedProperty (props (componentStore f) !! boundKey f).

(** The instance before the constructor body runs: the class field
    initialisers and the parameter properties. *)
Definition blank (p : Params) (defer : bool) : World :=
  mkWorld (mkField p defer None JUndefined false JUndefined None None None [])
          0 false false false [].

Definition constructor : M unit :=
  f <- get ;;
  let model := this_model f in
  if negb (truthy_str (model_valued model))
  then throw (Error "'model.valued' is falsy")
  else if negb (truthy_str (model_valueType model))
  then throw (Error "'model.typeOfValue' is undefined")
  else
    update (set_binding (model_valued model) (model_valueType model)) ;;;
    emit MadeObservable ;;;
    f <- get ;;
    let seed := if isComputed f then computedValue f else initialDataValue f in
    update (set_value seed) ;;;
    emit (ValueSeeded seed) ;;;
    stopper <- autorun setValidator ;;
    update (set_disposers [stopper; DisposeValidator]) ;;;
    stopper <- reaction ;;
    f <- get ;;
    update (set_disposers (disposers f ++ [stopper])).

(** The value the constructor seeds the field with. *)
Definition seedOf (p : Params) (defer : bool) : JsVal :=
  let f := set_binding (model_valued (model (componentData p)))
                       (model_valueType (model (componentData p)))
                       (this (blank p defer)) in
  if isComputed f then computedValue f else initialDataValue f.

(** [new SimpleField(componentData, calculateValue, createDataValidator,
    getInitialData, deferFieldCalculation)] *)
Definition new (p : Params) (defer : bool) : Completion unit * World :=
  constructor (blank p defer).

End Methods.

(** *** Methods *)

(** Calling one of the functions held in [#disposers]. *)
Definition call (d : Disposer) : M unit :=
  emit (DisposerCalled d) ;;;
  match d with
  | StopAutorun => stopAutorun
  | DisposeValidator => f <- get ;; disposeIfAny (dataValidator f)
  | StopReaction => stopReaction
  end.

Definition dispose : M unit :=
  f <- get ;;
  forEach (disposers f) call.

Definition clearError : M unit := update (set_error JUndefined).

Definition setError (error : JsVal) : M unit :=
  if String.eqb (typeof error) "string" then
    update (set_error error)
  else if String.eqb (typeof error) "undefined" || bool_decide (error = JNull) then
    update (set_error JUndefined)
  else
    throw (Error ("Expected 'string | undefined | null' type, got '"
                    ++ typeof error ++ "'")%string).

(** *** Reading the record of events *)

(** The world a piece of code leaves behind. *)
Definition after {A} (m : M A) (w : World) : World := (m w).2.

(** [n] further runs of the [setValidator] autorun. *)
Definition reruns (n : nat) (w : World) : World := Nat.iter n (after rerun) w.

(** The validators created and not disposed so far, oldest first. *)
Definition live (events : list Event) : list nat :=
  fold_left
    (fun alive e =>
       match e with
       | ValidatorCreated id _ => alive ++ [id]
       | ValidatorDisposed id _ => filter (fun v => v <> id) alive
       | _ => alive
       end)
    events [].

(** The wiring of a constructed field whose current validator is [n]: it is
    the only live one, both subscriptions are active, and [#disposers] holds
    the three functions the constructor collected. *)
Record Wired (n : nat) (w : World) : Prop := mkWired {
  wired_current : dataValidator (this w) = Some n;
  wired_old : oldDataValidator (this w) = Some n;
  wired_created : created w = S n;
  wired_autorun : autorunActive w = true;
  wired_reaction : reactionActive w = true;
  wired_idle : tracking w = false;
  wired_disposers : disposers (this w) = [StopAutorun; DisposeValidator; StopReaction];
  wired_live : live (log w) = [n]
}.

(** How often [dispose()] was called on validator [id]. *)
Definition teardowns (id : nat) (events : list Event) : nat :=
  length (filter (fun e => exists t, e = ValidatorDisposed id t) events).

End SimpleField.

(** ** The pipeline, in the specification's words

    A second description of a pass, to compare [Resolver.evaluate] with: which
    validators are called and what each call contributes. *)

Module Pipeline.
Import Resolver.


(** What the validator of a call answered, once settled. *)
Definition answer (c : Invocation) : JsVal :=
  settle (validator (callee c) (with_value c) (with_store c) (with_args c)
                    (with_formData c)).

(** The failure a call contributes, if any. *)
Definition failure (c : Invocation) : option ValidationResult :=
  match answer c with
  | JBool true => None
  | JStr text => Some (mkResult (settings (callee c)) (JStr text))
  | _ => Some (mkResult (settings (callee c))
                        (default JUndefined (with_args c !! "message")))
  end.

(** The argument object of a call: the declared defaults, overlaid with the
    rule's explicit arguments. *)
Definition argsFor (entry : ValidatorWithSettings) : Args :=
  Object_assign (assignDefaults (resolved_params entry) ∅) (args (settings entry)).

(** The calls a pass makes from snapshot [n] on: in pipeline order, one for
    every rule whose [validateWhen] holds on the snapshot taken at its turn,
    whatever any validator answers. *)
Fixpoint due (needValidate : JsVal -> JsVal -> bool) (value store : JsVal)
    (getFormData : FormDataSource) (n : nat)
    (validators : list ValidatorWithSettings) : list Invocation :=
  match validators with
  | [] => []
  | entry :: rest =>
      if needValidate (validateWhen (settings entry)) (formDataAt getFormData n)
      then mkInvocation entry value store (argsFor entry)
                        (formDataAt getFormData (S n))
           :: due needValidate value store getFormData (S (S n)) rest
      else due needValidate value store getFormData (S n) rest
  end.

(** The number of snapshots that pass takes. *)
Fixpoint taken (needValidate : JsVal -> JsVal -> bool)
    (getFormData : FormDataSource) (n : nat)
    (validators : list ValidatorWithSettings) : nat :=
  match validators with
  | [] => n
  | entry :: rest =>
      if needValidate (validateWhen (settings entry)) (formDataAt getFormData n)
      then taken needValidate getFormData (S (S n)) rest
      else taken needValidate getFormData (S n) rest
  end.

End Pipeline.

(** ** Sample data *)

Module Samples.
Import Resolver.

(** A rule with a key and nothing else. *)
Definition rule (k : string) : ValidationRuleSettings :=
  mkSettings k None None JUndefined.

(** A rule with a key and a type. *)
Definition typed (k t : string) : ValidationRuleSettings :=
  mkSettings k (Some t) None JUndefined.

(** Every [validateWhen] holds. *)
Definition always : JsVal -> JsVal -> bool := fun _ _ => true.

(** A validator that always fails with a message of its own. *)
Definition failing : RuleValidator := fun _ _ _ _ => Plain (JStr "invalid").

(** A registry whose only built-in rule is a failing ["required"]. *)
Definition strict : FormViewerValidationRules :=
  mkRules {[ "required" := mkInternal (fun _ => failing) None ]} None.


(** The schema whose rules are the given ones. *)
Definition schemaOf (rules : list ValidationRuleSettings) : BoundValueSchema :=
  mkSchema (Some rules) None.

(** What [strict] resolves the single rule ["required"] to. *)
Definition requiredOnly : ResolvedValidator :=
  fun value store getFormData =>
    resolved always value store getFormData
             (Some [mkResolved (rule "required") failing None]).

(** A ["required"] rule that is switched off. *)
Definition dormant : ValidatorWithSettings :=
  mkResolved (mkSettings "required" None None (JStr "never")) failing None.

(** A [validateWhen] holds unless it is the string ["never"]. *)
Definition unlessNever : JsVal -> JsVal -> bool :=
  fun condition _ => negb (bool_decide (condition = JStr "never")).

End Samples.

Module FieldSamples.
Import SimpleField.

(** The constructor parameters of a field bound to [valued], of type
    [valueType], with no store property, no default and no initial data. *)
Definition fieldFor (valued valueType : option string) : Params :=
  mkParams (mkData (mkModel valued valueType None) (mkStore "input" ∅) JUndefined)
           (fun _ _ => (JUndefined, JUndefined))
           (fun _ => JUndefined).

(** No property is computed. *)
Definition literal : option ComponentProperty -> bool := fun _ => false.

(** A text field bound to ["name"], freshly constructed. *)
Definition nameField : World :=
  mkWorld
    (mkField (fieldFor (Some "name") (Some "string")) false (Some 0%nat) JUndefined
             false JUndefined (Some "name") (Some "string") (Some 0%nat)
             [StopAutorun; DisposeValidator; StopReaction])
    1 true true false
    [MadeObservable; ValueSeeded JUndefined; AutorunCreated;
     ValidatorCreated 0 true; ValidatorAssigned 0; ReactionCreated].

End FieldSamples.

(** ** Resolution diagnostics *)

Module Diagnostics.
Import Resolver.

(** A rule resolution finds no definition for: its type is truthy, and either
    the type is not ["custom"] or the custom registry does not hold its key. *)
Definition unresolvable (validationRules : FormViewerValidationRules)
    (rule : ValidationRuleSettings) : bool :=
  truthy_str (type rule) &&
  negb (bool_decide (type rule = Some "custom") &&
        bool_decide (is_Some (custom validationRules
                                ≫= (fun registry => registry !! key rule)))).

(** The rules keyed ["code"] and ["required"]. *)
Definition isCode (rule : ValidationRuleSettings) : bool :=
  String.eqb (key rule) "code".

Definition isRequired (rule : ValidationRuleSettings) : bool :=
  String.eqb (key rule) "required".

(** The rules not keyed ["code"] in their order, then the ["code"] rules, last
    one foremost. *)
Definition codeLast (rules : list ValidationRuleSettings) : list ValidationRuleSettings :=
  List.filter (fun r => negb (isCode r)) rules ++ rev (List.filter isCode rules).

End Diagnostics.

(** ** The other methods of [SimpleField] *)

Module FieldOps.
Import SimpleField.

#[local] Notation "x <- m ;; k" := (bind m (fun x => k))
  (at level 100, m at next level, right associativity).
#[local] Notation "m ;;; k" := (bind m (fun _ => k))
  (at level 100, right associativity).

Definition set_touched (b : bool) (f : Field) : Field :=
  mkField (params f) (deferFieldCalculation f) (oldDataValidator f) (error f)
          b (value f) (valued f) (valueType f) (dataValidator f) (disposers f).


(** The three methods of a Data Validator the field calls, each with the
    validator and the value it is handed. *)
Inductive ValidatorCall : Type :=
| SendValidationEvent (id : nat) (value : JsVal)
| Validate (id : nat) (value : JsVal)
| GetValidationResult (id : nat) (value : JsVal).

(** [this.dataValidator?.method?.(this.value)]: the call made, if there is a
    validator and it has the method. *)
Definition callIfAny (has : nat -> bool) (method : nat -> JsVal -> ValidatorCall)
    (f : Field) : list ValidatorCall :=
  match dataValidator f with
  | Some id => if has id then [method id (value f)] else []
  | None => []
  end.

Section Operations.
(** [isComputedProperty] of [stores/ComponentStore], [needRender] of
    [utils/needRender], [autoConvertField] of [./autoConvertField]. *)
Variable isComputedProperty : option ComponentProperty -> bool.
Variable needRender : ComponentStore -> JsVal -> bool.
Variable autoConvertField : JsVal -> option string -> JsVal.
(** [componentStore.schema?.autoValidate] *)
Variable autoValidate : ComponentStore -> option bool.
(** Which of the optional methods a validator has, and what its
    [getValidationResult(value)] resolves to. *)
Variables (hasSend hasValidate hasResult : nat -> bool).
Variable resultOf : nat -> JsVal -> option (list Resolver.ValidationResult).

Definition needValidate (f : Field) : bool :=
  needRender (componentStore f) (dataRoot (componentData (params f))).

Definition innerSetValue (v : JsVal) : M unit := update (set_value v).

Definition setTouched : M unit := update (set_touched true).



(** [validate()] *)
Definition validate : M (list ValidatorCall) :=
  f <- get ;;
  if negb (needValidate f) then
    clearError ;;;
    ret []
  else ret (callIfAny hasValidate Validate f).

(** [getValidationResult()]: the calls made and what the promise resolves to. *)
Definition getValidationResult : M (list ValidatorCall * option (list JsVal)) :=
  f <- get ;;
  if negb (needValidate f) then ret ([], None)
  else
    let result : option (list Resolver.ValidationResult) :=
      match dataValidator f with
      | Some id => if hasResult id then resultOf id (value f) else None
      | None => None
      end in
    ret (callIfAny hasResult GetValidationResult f,
         option_map (map Resolver.message) result).

(** [reset()] *)
Definition reset : M unit :=
  f <- get ;;
  innerSetValue (nullish (initialValue f) (defaultValue f)) ;;;
  clearError.

(** [clear()] *)
Definition clear : M unit :=
  f <- get ;;
  innerSetValue (defaultValue f) ;;;
  update (set_touched false) ;;;
  clearError.

End Operations.

End FieldOps.

(** ** The checkbox cell ([CheckCell]) *)

Module CheckCell.

(** [handleChange(_, checked)]: the row object after the write, and the
    arguments [onChange] was called with, if it was given. *)
Definition handleChange (rowData : gmap string JsVal) (dataKey : string)
    (rowIndex : nat) (onChange : bool) (checked : bool)
  : gmap string JsVal * list (bool * string * nat) :=
  (<[dataKey := JBool checked]> rowData,
   if onChange then [(checked, dataKey, rowIndex)] else []).

(** The [checked] property of the checkbox: [rowData[dataKey] ?? false]. *)
Definition checkedProp (rowData : gmap string JsVal) (dataKey : string) : JsVal :=
  nullish (default JUndefined (rowData !! dataKey)) (JBool false).

End CheckCell.

(** * Properties *)

(** ** Both sorting strategies rearrange, whatever the comparator *)

Module ArraySortFacts.
Import ArraySort.

Section Rearrange.
Context {A : Type}.
Variable comparefn : A -> A -> Z.

Lemma extendRun_split (isDescending : bool) (rest : list A) :
  forall previous,
    (extendRun comparefn isDescending previous rest).1
      ++ (extendRun comparefn isDescending previous rest).2 = rest.
Proof.
  induction rest as [|current rest IH]; intros previous; simpl; [done|].
  destruct (if isDescending then _ else _); simpl; [done|].
  specialize (IH current).
  destruct (extendRun comparefn isDescending current rest) as [run remaining].
  simpl in *. by rewrite IH.
Qed.

Lemma CountAndMakeRun_perm (work : list A) :
  (CountAndMakeRun comparefn work).1 ++ (CountAndMakeRun comparefn work).2 ≡ₚ work.
Proof.
  destruct work as [|high [|low rest]]; simpl; try done.
  pose proof (extendRun_split (comparefn low high <? 0) rest low) as Hsplit.
  destruct (extendRun comparefn _ low rest) as [run remaining]; simpl in *.
  subst rest.
  destruct (comparefn low high <? 0); simpl; [|done].
  change (high :: low :: run ++ remaining) with ((high :: low :: run) ++ remaining).
  apply Permutation_app_tail.
  change ((rev run ++ [low]) ++ [high]) with (rev (high :: low :: run)).
  symmetry. apply Permutation_rev.
Qed.

Lemma insertAt_perm (work : list A) (left : nat) (pivot : A) :
  insertAt work left pivot ≡ₚ pivot :: work.
Proof.
  unfold insertAt. rewrite <- Permutation_middle.
  by rewrite take_drop.
Qed.

Lemma BinaryInsertionSort_perm (rest : list A) :
  forall run, BinaryInsertionSort comparefn run rest ≡ₚ run ++ rest.
Proof.
  unfold BinaryInsertionSort.
  induction rest as [|pivot rest IH]; intros run; simpl.
  - by rewrite app_nil_r.
  - rewrite IH, insertAt_perm. by rewrite <- Permutation_middle.
Qed.

Lemma ArrayTimSort_perm (array : list A) :
  ArrayTimSort comparefn array ≡ₚ array.
Proof.
  unfold ArrayTimSort. destruct (length array <? 2)%nat; [done|].
  pose proof (CountAndMakeRun_perm array) as Hrun.
  destruct (CountAndMakeRun comparefn array) as [run rest]; simpl in *.
  by rewrite BinaryInsertionSort_perm.
Qed.

Lemma insertBackwards_perm (element : A) (sortedRev : list A) :
  insertBackwards comparefn sortedRev element ≡ₚ element :: sortedRev.
Proof.
  induction sortedRev as [|tmp before IH]; simpl; [done|].
  destruct (0 <? comparefn tmp element); [|done].
  rewrite IH. apply perm_swap.
Qed.

Lemma InsertionSort_perm (array : list A) :
  InsertionSort comparefn array ≡ₚ array.
Proof.
  unfold InsertionSort. rewrite <- Permutation_rev.
  assert (forall acc, fold_left (insertBackwards comparefn) array acc ≡ₚ acc ++ array)
    as Hfold.
  { induction array as [|a array IH]; intros acc; simpl.
    - by rewrite app_nil_r.
    - rewrite IH, insertBackwards_perm. by rewrite <- Permutation_middle. }
  apply (Hfold []).
Qed.
End Rearrange.
End ArraySortFacts.

(** ** The validator resolver *)

Module ResolverFacts.
Import ArraySort Resolver Pipeline Samples.

(** *** The comparator *)

(** [byPriority] looks at its second argument only. *)
Lemma byPriority_ignores_first (a a' b : ValidationRuleSettings) :
  byPriority a b = byPriority a' b.
Proof. reflexivity. Qed.

(** It is not a consistent comparator: ["minLength"] sorts before ["code"],
    yet ["code"] does not sort after ["minLength"]. *)
Lemma byPriority_inconsistent :
  byPriority (rule "minLength") (rule "code") < 0 /\
  ~ 0 < byPriority (rule "code") (rule "minLength").
Proof. split; [reflexivity | discriminate]. Qed.

(** *** Resolution *)

Lemma mapM_throws {A B} (f : A -> Console B) (e : Exn) (l : list A) (x : A) :
  x ∈ l ->
  (forall a, a ∈ l -> forall e', (f a).2 = Throw e' -> e' = e) ->
  (f x).2 = Throw e ->
  (mapM f l).2 = Throw e.
Proof.
  induction l as [|a l IH]; intros Hin Honly Hx; [by apply elem_of_nil in Hin|].
  simpl. unfold bind.
  destruct (f a) as [out [b|e']] eqn:Hfa.
  - assert (x ∈ l) as Hin'.
    { apply elem_of_cons in Hin as [->|]; [|done].
      rewrite Hfa in Hx. discriminate. }
    assert (forall a', a' ∈ l -> forall e', (f a').2 = Throw e' -> e' = e) as Honly'.
    { intros a' Ha'. apply Honly. apply elem_of_cons. by right. }
    specialize (IH Hin' Honly' Hx).
    destruct (mapM f l) as [out' [bs|e']]; simpl in *; [discriminate|].
    by inversion IH.
  - simpl. f_equal. apply (Honly a); [apply elem_of_cons; by left|].
    by rewrite Hfa.
Qed.

(** Whatever [mapM] returns normally was returned element by element. *)
Lemma mapM_Forall2 {A B} (f : A -> Console B) (l : list A) :
  forall out bs,
    mapM f l = (out, Normal bs) ->
    Forall2 (fun a b => exists o, f a = (o, Normal b)) l bs.
Proof.
  induction l as [|a l IH]; intros out bs; simpl.
  - intros [= <- <-]. constructor.
  - unfold bind. destruct (f a) as [o [b|e]] eqn:Hfa; [|discriminate].
    destruct (mapM f l) as [o' [bs'|e]] eqn:Hrest; simpl; [|discriminate].
    intros [= <- <-]. constructor; [by exists o|]. by eapply IH.
Qed.

Lemma toValidator_throws_only (validationRules : FormViewerValidationRules)
    (rule : ValidationRuleSettings) (e : Exn) :
  (toValidator validationRules rule).2 = Throw e -> e = missingDefinition.
Proof.
  unfold toValidator.
  destruct (truthy_str (type rule)); simpl.
  - case_bool_decide; [destruct (custom validationRules ≫= _)|]; simpl; discriminate.
  - destruct (internal validationRules !! key rule); simpl; [discriminate|].
    by intros [= <-].
Qed.

(** The settings of a resolved entry are the rule it was resolved from. *)
Lemma toValidator_settings (validationRules : FormViewerValidationRules)
    (rule : ValidationRuleSettings) (out : list string) (entry : ValidatorWithSettings) :
  toValidator validationRules rule = (out, Normal entry) -> settings entry = rule.
Proof.
  unfold toValidator.
  destruct (truthy_str (type rule)); simpl.
  - case_bool_decide; [destruct (custom validationRules ≫= _)|]; simpl;
      by intros [= <- <-].
  - destruct (internal validationRules !! key rule); simpl; [|discriminate].
    by intros [= <- <-].
Qed.

(** *** Evaluation *)

Section Passes.
Variable needValidate : JsVal -> JsVal -> bool.
Variables (value store : JsVal) (getFormData : FormDataSource).

Lemma iteration_skips (p : Pass) (entry : ValidatorWithSettings) :
  needValidate (validateWhen (settings entry)) (formDataAt getFormData (snapshots p))
    = false ->
  iteration needValidate value store getFormData p entry = tick p.
Proof. unfold iteration. simpl. by intros ->. Qed.

Lemma iteration_calls (p : Pass) (entry : ValidatorWithSettings) :
  needValidate (validateWhen (settings entry)) (formDataAt getFormData (snapshots p))
    = true ->
  iteration needValidate value store getFormData p entry =
    mkPass (S (S (snapshots p)))
           (validationResults p
              ++ option_list
                   (failure (mkInvocation entry value store (argsFor entry)
                               (formDataAt getFormData (S (snapshots p))))))
           (invocations p
              ++ [mkInvocation entry value store (argsFor entry)
                    (formDataAt getFormData (S (snapshots p)))]).
Proof.
  unfold iteration. simpl. intros ->. simpl.
  unfold failure, answer, argsFor, messageOf. simpl.
  destruct (settle _) as [| |[|]|n|text|ref]; simpl;
    rewrite ?app_nil_r; reflexivity.
Qed.

Lemma evaluate_due (validators : list ValidatorWithSettings) :
  forall p,
    evaluate needValidate value store getFormData validators p =
      mkPass (taken needValidate getFormData (snapshots p) validators)
             (validationResults p
                ++ omap failure
                     (due needValidate value store getFormData (snapshots p) validators))
             (invocations p
                ++ due needValidate value store getFormData (snapshots p) validators).
Proof.
  unfold evaluate.
  induction validators as [|entry rest IH]; intros p; simpl.
  - rewrite !app_nil_r. by destruct p.
  - destruct (needValidate _ _) eqn:Hwhen.
    + rewrite iteration_calls by done. rewrite IH. simpl.
      destruct (failure _); simpl;
        by rewrite <- !app_assoc.
    + rewrite iteration_skips by done. by rewrite IH.
Qed.
End Passes.

Lemma due_callee needValidate value store getFormData
    (validators : list ValidatorWithSettings) (c : Invocation) :
  forall n,
    c ∈ due needValidate value store getFormData n validators ->
    callee c ∈ validators.
Proof.
  induction validators as [|entry rest IH]; intros n; simpl.
  - by intros ?%elem_of_nil.
  - destruct (needValidate _ _).
    + intros [->|Hin]%elem_of_cons; apply elem_of_cons; [by left|right; eauto].
    + intros Hin. apply elem_of_cons. right; eauto.
Qed.


(** *** Argument objects *)




Lemma parse_resolves sort (validationRules : FormViewerValidationRules)
    (schema : BoundValueSchema) (rules : list ValidationRuleSettings)
    (out : list string) (validators : option (list ValidatorWithSettings)) :
  validations schema = Some rules -> rules <> [] ->
  parse sort validationRules (Some schema) = (out, Normal validators) ->
  exists resolved,
    validators = Some resolved /\
    Forall2 (fun rule entry => exists o, toValidator validationRules rule = (o, Normal entry))
            (sort byPriority rules) resolved.
Proof.
  intros Hrules Hne. unfold parse. rewrite Hrules.
  destruct rules as [|r rs]; [done|].
  unfold bind.
  destruct (mapM _ _) as [o [resolved|e]] eqn:Hmap; simpl; [|discriminate].
  intros [= <- <-]. exists resolved. split; [done|].
  by eapply mapM_Forall2.
Qed.

Lemma resolved_settings (validationRules : FormViewerValidationRules)
    (rules : list ValidationRuleSettings) (resolved : list ValidatorWithSettings) :
  Forall2 (fun rule entry => exists o, toValidator validationRules rule = (o, Normal entry))
          rules resolved ->
  settings <$> resolved = rules.
Proof.
  induction 1 as [|rule entry rules resolved [o Hentry] _ IH]; [done|].
  simpl. f_equal; [|done]. by eapply toValidator_settings.
Qed.

Lemma validatorsResolver_normal sort needValidate
    (validationRules : FormViewerValidationRules) (schema : option BoundValueSchema)
    (out : list string) (f : ResolvedValidator) :
  validatorsResolver sort needValidate validationRules schema = (out, Normal f) ->
  exists validators,
    parse sort validationRules schema = (out, Normal validators) /\
    f = fun value store getFormData =>
          resolved needValidate value store getFormData validators.
Proof.
  unfold validatorsResolver, bind.
  destruct (parse sort validationRules schema) as [o [validators|e]]; simpl;
    [|discriminate].
  intros [= <- <-]. exists validators. by rewrite app_nil_r.
Qed.

Lemma resolved_due needValidate value store getFormData
    (validators : list ValidatorWithSettings) :
  resolved needValidate value store getFormData (Some validators) =
    (Some (omap failure (due needValidate value store getFormData 0 validators)),
     due needValidate value store getFormData 0 validators).
Proof. unfold resolved. by rewrite evaluate_due. Qed.

(** *** The claims *)

(** C1 (defect of the code).  The comment above [byPriority] asks for
    ["required"] first and ["code"] last.  On the input
    [code, minLength, required] neither sorting strategy delivers the order
    [required, minLength, code]: binary insertion (the comparator receiving
    the later element first) leaves ["required"] behind ["minLength"], and
    plain insertion (the earlier element first) leaves ["code"] ahead of
    ["minLength"]; binary insertion does not even move ["required"] to the
    front of [minLength, required, code]. *)
Theorem byPriority_misorders :
  key <$> ArrayTimSort byPriority [rule "code"; rule "minLength"; rule "required"]
    = ["minLength"; "required"; "code"]
  /\ key <$> InsertionSort byPriority [rule "code"; rule "minLength"; rule "required"]
    = ["required"; "code"; "minLength"]
  /\ key <$> ArrayTimSort byPriority [rule "minLength"; rule "required"; rule "code"]
    = ["minLength"; "required"; "code"].
Proof. repeat split; vm_compute; reflexivity. Qed.

(** C2 (defect of the code).  A rule without a type whose key the built-in
    registry does not hold makes the whole resolution throw, whatever else
    the schema lists and however the engine orders the rules: no function is
    produced, so no rule of the schema is ever executed. *)
Theorem unknown_builtin_rule_throws sort needValidate
    (validationRules : FormViewerValidationRules) (schema : BoundValueSchema)
    (rules : list ValidationRuleSettings) (rule : ValidationRuleSettings) :
  (forall l, sort byPriority l ≡ₚ l) ->
  validations schema = Some rules ->
  rule ∈ rules ->
  truthy_str (type rule) = false ->
  internal validationRules !! key rule = None ->
  exists out,
    validatorsResolver sort needValidate validationRules (Some schema)
      = (out, Throw missingDefinition).
Proof.
  intros Hperm Hrules Hin Htype Hkey.
  assert ((toValidator validationRules rule).2 = Throw missingDefinition) as Hthrow.
  { unfold toValidator. by rewrite Htype, Hkey. }
  assert ((mapM (toValidator validationRules) (sort byPriority rules)).2
          = Throw missingDefinition) as Hmap.
  { apply mapM_throws with (x := rule); [by rewrite Hperm| |done].
    intros a _ e. apply toValidator_throws_only. }
  unfold validatorsResolver, parse. rewrite Hrules.
  destruct rules as [|r rs]; [by apply elem_of_nil in Hin|].
  unfold bind at 2.
  destruct (mapM _ _) as [o [resolved|e]]; simpl in *; [discriminate|].
  inversion Hmap; subst e. by exists o.
Qed.

Lemma unknown_builtin_rule_throws_witness :
  exists out,
    validatorsResolver ArrayTimSort always strict
      (Some (schemaOf [rule "required"; rule "unknown"]))
      = (out, Throw missingDefinition).
Proof.
  apply (unknown_builtin_rule_throws ArrayTimSort always strict
           (schemaOf [rule "required"; rule "unknown"])
           [rule "required"; rule "unknown"] (rule "unknown")).
  - intros l. apply ArraySortFacts.ArrayTimSort_perm.
  - reflexivity.
  - apply elem_of_cons. right. apply elem_of_cons. by left.
  - reflexivity.
  - vm_compute. reflexivity.
Defined.

(** C5.  The function the resolver produces resolves to [undefined], calling
    nothing, when the schema is absent or its [validations] are absent or
    empty.  Otherwise the pipeline is the priority-sorted rule list, every
    rule whose [validateWhen] holds at its turn is called whatever the
    others answered, and the promise resolves to the list of the failures of
    these calls, in order: a list even when every call passed. *)
Theorem resolved_function_result sort needValidate
    (validationRules : FormViewerValidationRules) (schema : option BoundValueSchema)
    (out : list string) (f : ResolvedValidator) :
  validatorsResolver sort needValidate validationRules schema = (out, Normal f) ->
  ((schema = None \/
    exists s, schema = Some s /\ (validations s = None \/ validations s = Some [])) ->
   forall value store getFormData, f value store getFormData = (None, []))
  /\
  (forall s rules,
     schema = Some s -> validations s = Some rules -> rules <> [] ->
     exists validators,
       settings <$> validators = sort byPriority rules /\
       forall value store getFormData,
         let calls := due needValidate value store getFormData 0 validators in
         f value store getFormData = (Some (omap failure calls), calls) /\
         (Forall (fun c => answer c = JBool true) calls -> omap failure calls = [])).
Proof.
  intros (validators & Hparse & ->)%validatorsResolver_normal. split.
  - intros Hnone value store getFormData.
    assert (validators = None) as ->; [|done].
    destruct Hnone as [->|(s & -> & [Hv|Hv])]; unfold parse in Hparse;
      rewrite ?Hv in Hparse; by inversion Hparse.
  - intros s rules -> Hrules Hne.
    destruct (parse_resolves _ _ _ _ _ _ Hrules Hne Hparse) as (resolved & -> & Hall).
    exists resolved. split.
    + by eapply resolved_settings.
    + intros value store getFormData calls. split; [apply resolved_due|].
      induction 1 as [|c calls' Hc _ IH]; [done|].
      simpl. unfold failure at 1. by rewrite Hc.
Qed.

Lemma resolved_function_result_witness :
  validatorsResolver ArrayTimSort always strict (Some (schemaOf [rule "required"]))
    = ([], Normal requiredOnly)
  /\ exists validators,
       settings <$> validators = ArrayTimSort byPriority [rule "required"] /\
       forall value store getFormData,
         requiredOnly value store getFormData
           = (Some (omap failure (due always value store getFormData 0 validators)),
              due always value store getFormData 0 validators).
Proof.
  assert (validatorsResolver ArrayTimSort always strict
            (Some (schemaOf [rule "required"])) = ([], Normal requiredOnly)) as Hrun.
  { vm_compute. reflexivity. }
  split; [exact Hrun|].
  destruct (resolved_function_result ArrayTimSort always strict
              (Some (schemaOf [rule "required"])) [] requiredOnly Hrun) as [_ Hsome].
  destruct (Hsome (schemaOf [rule "required"]) [rule "required"]
              eq_refl eq_refl ltac:(discriminate)) as (validators & Hsettings & Hcalls).
  exists validators. split; [exact Hsettings|].
  intros value store getFormData. apply Hcalls.
Defined.


(** C7.  A rule whose [validateWhen] does not hold on the form data read at
    its turn is passed over: the step makes no call and records no result,
    and the pass as a whole consists of what the rules before it and the
    rules after it call and contribute.  The rule's validator plays no part,
    failing or not. *)
Theorem rule_skipped_when_condition_false needValidate (value store : JsVal)
    (getFormData : FormDataSource)
    (before : list ValidatorWithSettings) (entry : ValidatorWithSettings)
    (after : list ValidatorWithSettings) :
  let p := evaluate needValidate value store getFormData before start in
  let q := iteration needValidate value store getFormData p entry in
  let final :=
    evaluate needValidate value store getFormData (before ++ entry :: after) start in
  needValidate (validateWhen (settings entry)) (formDataAt getFormData (snapshots p))
    = false ->
  invocations q = invocations p /\
  validationResults q = validationResults p /\
  invocations final
    = invocations p
        ++ due needValidate value store getFormData (S (snapshots p)) after /\
  validationResults final
    = validationResults p
        ++ omap failure
             (due needValidate value store getFormData (S (snapshots p)) after).
Proof.
  intros p q final Hwhen.
  assert (q = tick p) as Hq by (by apply iteration_skips).
  assert (final = evaluate needValidate value store getFormData after q) as ->.
  { unfold final, evaluate. rewrite fold_left_app. reflexivity. }
  rewrite Hq, evaluate_due. done.
Qed.

Lemma rule_skipped_when_condition_false_witness :
  unlessNever (validateWhen (settings dormant)) JUndefined = false /\
  invocations (evaluate unlessNever (JStr "") JUndefined None [dormant] start) = [] /\
  validationResults (evaluate unlessNever (JStr "") JUndefined None [dormant] start) = [].
Proof.
  split; [reflexivity|].
  destruct (rule_skipped_when_condition_false unlessNever (JStr "") JUndefined None
              [] dormant [] eq_refl) as (_ & _ & Hcalls & Hresults).
  split; [exact Hcalls | exact Hresults].
Defined.

(** C10, as stated, fails: the empty string is a type that is defined and is
    not ["custom"], yet a rule so typed is looked up in the built-in
    registry, without any warning, and its validator's failure is
    reported. *)
Lemma empty_type_is_builtin :
  type (typed "required" "") = Some "" /\
  type (typed "required" "") <> Some "custom" /\
  toValidator strict (typed "required" "")
    = ([], Normal (mkResolved (typed "required" "") failing None)) /\
  resolved always (JStr "") JUndefined None
           (Some [mkResolved (typed "required" "") failing None])
    = (Some [mkResult (typed "required" "") (JStr "invalid")],
       [mkInvocation (mkResolved (typed "required" "") failing None)
                     (JStr "") JUndefined ∅ JUndefined]).
Proof. repeat split; try discriminate; vm_compute; reflexivity. Qed.

(** C10, amended.  A rule whose type is a non-empty string other than
    ["custom"] resolves, whatever its key and whatever the two registries
    hold, to the no-op validator after one warning; and no result of a
    function the resolver produces carries the settings of such a rule. *)
Theorem foreign_type_resolves_to_noop (validationRules : FormViewerValidationRules)
    (rule : ValidationRuleSettings) :
  truthy_str (type rule) = true ->
  type rule <> Some "custom" ->
  toValidator validationRules rule
    = ([warning rule], Normal (mkResolved rule noOpValidator None))
  /\ forall sort needValidate schema out (f : ResolvedValidator)
        value store getFormData results calls,
       validatorsResolver sort needValidate validationRules schema = (out, Normal f) ->
       f value store getFormData = (Some results, calls) ->
       forall r, r ∈ results -> result_settings r <> rule.
Proof.
  intros Htruthy Hforeign.
  assert (toValidator validationRules rule
          = ([warning rule], Normal (mkResolved rule noOpValidator None))) as Hnoop.
  { unfold toValidator. rewrite Htruthy. simpl. by rewrite bool_decide_eq_false_2. }
  split; [exact Hnoop|].
  intros sort needValidate schema out f value store getFormData results calls
         (validators & Hparse & ->)%validatorsResolver_normal Hrun r Hr Hsame.
  destruct validators as [validators|]; [|discriminate].
  rewrite resolved_due in Hrun. injection Hrun as <- <-.
  apply list_elem_of_omap in Hr as (c & Hc & Hfail).
  assert (result_settings r = settings (callee c)) as Hsettings.
  { unfold failure in Hfail.
    destruct (answer c) as [| |[|]|n|text|ref]; by inversion Hfail. }
  assert (exists rule', exists o,
            toValidator validationRules rule' = (o, Normal (callee c))) as (rule' & o & Hentry).
  { apply due_callee in Hc.
    assert (exists rules, Forall2
              (fun rule entry => exists o, toValidator validationRules rule = (o, Normal entry))
              rules validators) as [rules Hall].
    { unfold parse in Hparse.
      destruct schema as [s|]; [|discriminate].
      destruct (validations s) as [[|r0 rs]|]; try discriminate.
      unfold bind in Hparse.
      destruct (mapM _ _) as [o [resolved|e]] eqn:Hmap; simpl in Hparse; [|discriminate].
      injection Hparse as _ <-. eexists. by eapply mapM_Forall2. }
    apply list_elem_of_lookup in Hc as [i Hi].
    destruct (Forall2_lookup_r _ _ _ _ _ Hall Hi) as (rule' & _ & o & Hentry).
    by exists rule', o. }
  assert (rule' = rule) as ->.
  { rewrite <- (toValidator_settings _ _ _ _ Hentry). congruence. }
  rewrite Hnoop in Hentry. injection Hentry as _ Hcallee.
  unfold failure, answer in Hfail. rewrite <- Hcallee in Hfail. discriminate.
Qed.

Lemma foreign_type_resolves_to_noop_witness :
  truthy_str (type (typed "required" "internal")) = true /\
  type (typed "required" "internal") <> Some "custom" /\
  toValidator strict (typed "required" "internal")
    = (["Cannot find rule, key: 'required', type: 'internal'"],
       Normal (mkResolved (typed "required" "internal") noOpValidator None)).
Proof.
  split; [reflexivity|]. split; [discriminate|].
  apply (foreign_type_resolves_to_noop strict (typed "required" "internal"));
    [reflexivity | discriminate].
Defined.

End ResolverFacts.

(** ** The reactive field container *)

Module SimpleFieldFacts.
Import SimpleField FieldSamples.

Section Lifecycle.
Variable isComputedProperty : option ComponentProperty -> bool.

Lemma bind_get {A} (k : Field -> M A) (w : World) :
  bind get k w = k (this w) w.
Proof. reflexivity. Qed.

(** The constructor, once the two guards are evaluated. *)
Lemma constructor_guards (p : Params) (defer : bool) :
  new isComputedProperty p defer =
    (if negb (truthy_str (model_valued (model (componentData p))))
     then throw (Error "'model.valued' is falsy")
     else if negb (truthy_str (model_valueType (model (componentData p))))
     then throw (Error "'model.typeOfValue' is undefined")
     else
       bind (update (set_binding (model_valued (model (componentData p)))
                                 (model_valueType (model (componentData p)))))
         (fun _ =>
          bind (emit MadeObservable)
            (fun _ =>
             bind get
               (fun f =>
                let seed := if isComputed isComputedProperty f
                            then computedValue f else initialDataValue f in
                bind (update (set_value seed))
                  (fun _ =>
                   bind (emit (ValueSeeded seed))
                     (fun _ =>
                      bind (autorun setValidator)
                        (fun stopper =>
                         bind (update (set_disposers [stopper; DisposeValidator]))
                           (fun _ =>
                            bind reaction
                              (fun stopper' =>
                               bind get
                                 (fun f' =>
                                  update (set_disposers (disposers f' ++ [stopper']))))))))))))
      (blank p defer).
Proof. reflexivity. Qed.

Lemma new_throws (p : Params) (defer : bool) :
  truthy_str (model_valued (model (componentData p))) = false \/
  truthy_str (model_valueType (model (componentData p))) = false ->
  exists e, new isComputedProperty p defer = (Throw e, blank p defer).
Proof.
  rewrite constructor_guards.
  intros [Hkey|Htype].
  - rewrite Hkey. cbn [negb]. by eexists.
  - rewrite Htype.
    destruct (truthy_str (model_valued _)); cbn [negb]; by eexists.
Qed.

Lemma new_wired (p : Params) (defer : bool) :
  truthy_str (model_valued (model (componentData p))) = true ->
  truthy_str (model_valueType (model (componentData p))) = true ->
  exists w,
    new isComputedProperty p defer = (Normal tt, w) /\
    Wired 0 w /\
    value (this w) = seedOf isComputedProperty p defer /\
    valued (this w) = model_valued (model (componentData p)) /\
    valueType (this w) = model_valueType (model (componentData p)) /\
    log w = [MadeObservable; ValueSeeded (seedOf isComputedProperty p defer);
             AutorunCreated;
             ValidatorCreated 0 true; ValidatorAssigned 0; ReactionCreated].
Proof.
  intros Hkey Htype.
  rewrite constructor_guards, Hkey, Htype. cbn [negb].
  exists (mkWorld
            (mkField p defer (Some 0%nat) JUndefined false
                     (seedOf isComputedProperty p defer)
                     (model_valued (model (componentData p)))
                     (model_valueType (model (componentData p)))
                     (Some 0%nat) [StopAutorun; DisposeValidator; StopReaction])
            1 true true false
            [MadeObservable; ValueSeeded (seedOf isComputedProperty p defer);
             AutorunCreated;
             ValidatorCreated 0 true; ValidatorAssigned 0; ReactionCreated]).
  split; [reflexivity|].
  split; [by constructor|]. done.
Qed.

Lemma live_app (events events' : list Event) :
  live (events ++ events') =
    fold_left
      (fun alive e =>
         match e with
         | ValidatorCreated id _ => alive ++ [id]
         | ValidatorDisposed id _ => filter (fun v => v <> id) alive
         | _ => alive
         end)
      events' (live events).
Proof. unfold live. by rewrite fold_left_app. Qed.

Lemma rerun_wired (n : nat) (w : World) :
  Wired n w ->
  exists w',
    rerun w = (Normal tt, w') /\
    Wired (S n) w' /\
    log w' = log w ++ [ValidatorCreated (S n) true; ValidatorAssigned (S n);
                       ValidatorDisposed n false].
Proof.
  intros [Hcur Hold Hmade Hauto Hreact Hidle Hdisp Hlive].
  destruct w as [f made auto react tracked events].
  destruct f as [p defer old err tch val key ty cur ds].
  simpl in *. subst.
  exists (mkWorld
            (mkField p defer (Some (S n)) err tch val key ty (Some (S n))
                     [StopAutorun; DisposeValidator; StopReaction])
            (S (S n)) true true false
            (((events ++ [ValidatorCreated (S n) true]) ++ [ValidatorAssigned (S n)])
               ++ [ValidatorDisposed n false])).
  split; [vm_compute; reflexivity|].
  split.
  - constructor; cbn [this log created autorunActive reactionActive tracking
                      dataValidator oldDataValidator disposers]; try done.
    rewrite <- !app_assoc. cbn [app]. rewrite live_app, Hlive. cbn [fold_left app].
    rewrite filter_cons_False by (intros ?; done).
    rewrite filter_cons_True by lia. done.
  - cbn [log]. by rewrite <- !app_assoc.
Qed.

Lemma reruns_wired (n : nat) (w : World) :
  Wired 0 w -> Wired n (reruns n w).
Proof.
  intros Hw. induction n as [|n IH]; [done|].
  simpl. destruct (rerun_wired n _ IH) as (w' & Hrun & Hw' & _).
  unfold after. by rewrite Hrun.
Qed.

Lemma dispose_wired (n : nat) (w : World) :
  Wired n w ->
  exists w1 w2,
    dispose w = (Normal tt, w1) /\
    log w1 = log w ++ [DisposerCalled StopAutorun; AutorunStopped;
                       DisposerCalled DisposeValidator; ValidatorDisposed n false;
                       DisposerCalled StopReaction; ReactionStopped] /\
    dispose w1 = (Normal tt, w2) /\
    log w2 = log w1 ++ [DisposerCalled StopAutorun;
                        DisposerCalled DisposeValidator; ValidatorDisposed n false;
                        DisposerCalled StopReaction].
Proof.
  intros [Hcur Hold Hmade Hauto Hreact Hidle Hdisp Hlive].
  destruct w as [f made auto react tracked events].
  destruct f as [p defer old err tch val key ty cur ds].
  simpl in *. subst.
  set (f := mkField p defer (Some n) err tch val key ty (Some n)
                    [StopAutorun; DisposeValidator; StopReaction]).
  set (first := [DisposerCalled StopAutorun; AutorunStopped;
                 DisposerCalled DisposeValidator; ValidatorDisposed n false;
                 DisposerCalled StopReaction; ReactionStopped]).
  set (second := [DisposerCalled StopAutorun;
                  DisposerCalled DisposeValidator; ValidatorDisposed n false;
                  DisposerCalled StopReaction]).
  exists (mkWorld f (S n) false false false (events ++ first)),
         (mkWorld f (S n) false false false ((events ++ first) ++ second)).
  assert (forall l : list Event, l ++ first
            = (((((l ++ [DisposerCalled StopAutorun]) ++ [AutorunStopped])
                   ++ [DisposerCalled DisposeValidator]) ++ [ValidatorDisposed n false])
                 ++ [DisposerCalled StopReaction]) ++ [ReactionStopped]) as Hfirst.
  { intros l. unfold first. by rewrite <- !app_assoc. }
  assert (forall l : list Event, l ++ second
            = (((l ++ [DisposerCalled StopAutorun])
                   ++ [DisposerCalled DisposeValidator]) ++ [ValidatorDisposed n false])
                 ++ [DisposerCalled StopReaction]) as Hsecond.
  { intros l. unfold second. by rewrite <- !app_assoc. }
  split; [rewrite Hfirst; vm_compute; reflexivity|].
  split; [reflexivity|].
  split; [rewrite Hsecond; vm_compute; reflexivity|].
  reflexivity.
Qed.

Lemma new_normal_wired (p : Params) (defer : bool) (w : World) :
  new isComputedProperty p defer = (Normal tt, w) -> Wired 0 w.
Proof.
  intros Hnew.
  destruct (truthy_str (model_valued (model (componentData p)))) eqn:Hkey;
    [destruct (truthy_str (model_valueType (model (componentData p)))) eqn:Htype|].
  - destruct (new_wired p defer Hkey Htype) as (w' & Hnew' & Hw & _).
    congruence.
  - destruct (new_throws p defer (or_intror Htype)) as [e He]. congruence.
  - destruct (new_throws p defer (or_introl Hkey)) as [e He]. congruence.
Qed.

(** *** The claims *)

(** C3, amended.  On a constructed field, however often its validator was
    replaced since, [dispose()] calls each of the three registered
    disposers once, in the order of registration, and does not throw: the
    autorun is stopped, the current validator disposed, the reaction
    stopped.  A second [dispose()] calls each disposer once more: the two
    subscriptions, already stopped, are not torn down again, but
    [dispose()] is called on the current validator a second time. *)
Theorem dispose_calls_disposers_each_time (p : Params) (defer : bool)
    (w0 : World) (n : nat) :
  new isComputedProperty p defer = (Normal tt, w0) ->
  let w := reruns n w0 in
  disposers (this w) = [StopAutorun; DisposeValidator; StopReaction] /\
  dataValidator (this w) = Some n /\
  exists w1 w2,
    dispose w = (Normal tt, w1) /\
    log w1 = log w ++ [DisposerCalled StopAutorun; AutorunStopped;
                       DisposerCalled DisposeValidator; ValidatorDisposed n false;
                       DisposerCalled StopReaction; ReactionStopped] /\
    dispose w1 = (Normal tt, w2) /\
    log w2 = log w1 ++ [DisposerCalled StopAutorun;
                        DisposerCalled DisposeValidator; ValidatorDisposed n false;
                        DisposerCalled StopReaction].
Proof.
  intros Hnew w.
  assert (Wired n w) as Hw by (apply reruns_wired; by eapply new_normal_wired).
  split; [apply Hw|]. split; [apply Hw|].
  by apply dispose_wired.
Qed.

(** C4.  On a constructed field, every run of the [setValidator] autorun
    finds one current validator, the only live one; it creates the next
    one in the tracked region, assigns it to [dataValidator], and only then
    disposes the previous one, outside the tracked region; it leaves the
    new validator as the current and only live one. *)
Theorem validator_replaced_before_disposal (p : Params) (defer : bool)
    (w0 : World) (n : nat) :
  new isComputedProperty p defer = (Normal tt, w0) ->
  let w := reruns n w0 in
  exists w',
    rerun w = (Normal tt, w') /\
    dataValidator (this w) = Some n /\
    live (log w) = [n] /\
    log w' = log w ++ [ValidatorCreated (S n) true; ValidatorAssigned (S n);
                       ValidatorDisposed n false] /\
    dataValidator (this w') = Some (S n) /\
    live (log w') = [S n].
Proof.
  intros Hnew w.
  assert (Wired n w) as Hw by (apply reruns_wired; by eapply new_normal_wired).
  destruct (rerun_wired n w Hw) as (w' & Hrun & Hw' & Hlog).
  exists w'. repeat split; (done || apply Hw || apply Hw').
Qed.

(** C9, amended.  Construction throws when the model's bound key or its
    value type is absent or the empty string, and then nothing has been
    done: no value seeded, no subscription made, no validator created.
    With both non-empty it returns, the field bound to that key and
    type. *)
Theorem construction_checks (p : Params) (defer : bool) :
  (truthy_str (model_valued (model (componentData p))) = false \/
   truthy_str (model_valueType (model (componentData p))) = false ->
   exists e, new isComputedProperty p defer = (Throw e, blank p defer))
  /\
  (truthy_str (model_valued (model (componentData p))) = true ->
   truthy_str (model_valueType (model (componentData p))) = true ->
   exists w,
     new isComputedProperty p defer = (Normal tt, w) /\
     valued (this w) = model_valued (model (componentData p)) /\
     valueType (this w) = model_valueType (model (componentData p))).
Proof.
  split; [apply new_throws|].
  intros Hkey Htype.
  destruct (new_wired p defer Hkey Htype) as (w & Hnew & _ & _ & Hk & Ht & _).
  by exists w.
Qed.
End Lifecycle.

(** C3, as stated, fails: on a freshly constructed field the second
    [dispose()] calls [dispose()] on the validator again. *)
Lemma second_dispose_repeats_teardown :
  teardowns 0 (log (after dispose nameField)) = 1%nat /\
  teardowns 0 (log (after dispose (after dispose nameField))) = 2%nat.
Proof. split; vm_compute; reflexivity. Qed.

Lemma dispose_calls_disposers_each_time_witness :
  new literal (fieldFor (Some "name") (Some "string")) false = (Normal tt, nameField) /\
  dataValidator (this (reruns 1 nameField)) = Some 1%nat.
Proof.
  assert (new literal (fieldFor (Some "name") (Some "string")) false
          = (Normal tt, nameField)) as Hnew by (vm_compute; reflexivity).
  split; [exact Hnew|].
  apply (dispose_calls_disposers_each_time literal
           (fieldFor (Some "name") (Some "string")) false nameField 1 Hnew).
Defined.

Lemma validator_replaced_before_disposal_witness :
  new literal (fieldFor (Some "name") (Some "string")) false = (Normal tt, nameField) /\
  exists w',
    rerun (reruns 0 nameField) = (Normal tt, w') /\
    log w' = log (reruns 0 nameField)
               ++ [ValidatorCreated 1 true; ValidatorAssigned 1;
                   ValidatorDisposed 0 false].
Proof.
  assert (new literal (fieldFor (Some "name") (Some "string")) false
          = (Normal tt, nameField)) as Hnew by (vm_compute; reflexivity).
  split; [exact Hnew|].
  destruct (validator_replaced_before_disposal literal
              (fieldFor (Some "name") (Some "string")) false nameField 0 Hnew)
    as (w' & Hrun & _ & _ & Hlog & _).
  exists w'. split; [exact Hrun | exact Hlog].
Defined.

(** C9, as stated, fails: a bound key that is present but empty makes the
    constructor throw. *)
Lemma empty_bound_key_throws :
  is_Some (model_valued (model (componentData (fieldFor (Some "") (Some "string"))))) /\
  is_Some (model_valueType (model (componentData (fieldFor (Some "") (Some "string"))))) /\
  new literal (fieldFor (Some "") (Some "string")) false
    = (Throw (Error "'model.valued' is falsy"),
       blank (fieldFor (Some "") (Some "string")) false).
Proof. repeat split; (by eexists) || (vm_compute; reflexivity). Qed.

Lemma construction_checks_witness :
  truthy_str (model_valued (model (componentData (fieldFor None (Some "string")))))
    = false /\
  exists e, new literal (fieldFor None (Some "string")) false
            = (Throw e, blank (fieldFor None (Some "string")) false).
Proof.
  split; [reflexivity|].
  apply (construction_checks literal (fieldFor None (Some "string")) false).
  left. reflexivity.
Defined.

(** *** [setError] *)

(** C8.  [setError] stores a string as it is, turns [undefined] and [null]
    into [undefined], and throws on anything else, leaving the field as it
    was; so an [error] that was a string or [undefined] still is one. *)
Theorem setError_contract (e : JsVal) (w : World) :
  (forall s, e = JStr s ->
     exists w', setError e w = (Normal tt, w') /\ error (this w') = JStr s)
  /\ (e = JUndefined \/ e = JNull ->
      exists w', setError e w = (Normal tt, w') /\ error (this w') = JUndefined)
  /\ ((forall s, e <> JStr s) -> e <> JUndefined -> e <> JNull ->
      setError e w
        = (Throw (Error ("Expected 'string | undefined | null' type, got '"
                           ++ typeof e ++ "'")%string), w))
  /\ (forall r w',
        setError e w = (r, w') ->
        r = Normal tt \/
        (exists s, error (this w) = JStr s) \/ error (this w) = JUndefined ->
        (exists s, error (this w') = JStr s) \/ error (this w') = JUndefined).
Proof.
  repeat split.
  - intros s ->. eexists. split; reflexivity.
  - intros [-> | ->]; eexists; split; reflexivity.
  - intros Hstr Hundef Hnull.
    destruct e as [| |b|z|s|ref]; try reflexivity; try done.
    by destruct (Hstr s).
  - intros r w' Hset Hshape.
    destruct e as [| |b|z|s|ref]; injection Hset as <- <-;
      cbn [this error set_error];
      try (by right); try (by left; eexists);
      by destruct Hshape as [?|?].
Qed.

Lemma setError_contract_witness :
  (forall s, JNum 42 <> JStr s) /\
  setError (JNum 42) nameField
    = (Throw (Error "Expected 'string | undefined | null' type, got 'number'"),
       nameField).
Proof.
  split; [discriminate|].
  apply (setError_contract (JNum 42) nameField); discriminate.
Defined.

End SimpleFieldFacts.

(** ** More on the validator resolver *)

Module ResolverMore.
Import ArraySort Resolver Pipeline Samples Diagnostics ResolverFacts.

(** *** When resolution returns, and what it prints *)

Lemma toValidator_found (validationRules : FormViewerValidationRules)
    (rule : ValidationRuleSettings) :
  (truthy_str (type rule) = false -> is_Some (internal validationRules !! key rule)) ->
  exists entry,
    toValidator validationRules rule
      = (if unresolvable validationRules rule then [warning rule] else [], Normal entry).
Proof.
  intros Hfound. unfold toValidator, unresolvable.
  destruct (truthy_str (type rule)); simpl.
  - case_bool_decide; simpl; [|by eexists].
    destruct (custom validationRules ≫= _) as [definition|] eqn:Hcustom; simpl.
    + rewrite ?bool_decide_eq_true_2 by done. by eexists.
    + rewrite ?bool_decide_eq_false_2 by (by intros [? ?]). by eexists.
  - destruct (Hfound eq_refl) as [definition ->]. by eexists.
Qed.

Lemma toValidator_output (validationRules : FormViewerValidationRules)
    (rule : ValidationRuleSettings) (out : list string) (entry : ValidatorWithSettings) :
  toValidator validationRules rule = (out, Normal entry) ->
  out = if unresolvable validationRules rule then [warning rule] else [].
Proof.
  intros Hrun.
  destruct (toValidator_found validationRules rule) as [entry' Hentry].
  - intros Htype. destruct (internal validationRules !! key rule) eqn:Hkey; [done|].
    unfold toValidator in Hrun. rewrite Htype, Hkey in Hrun. discriminate.
  - congruence.
Qed.

Lemma mapM_toValidator_found (validationRules : FormViewerValidationRules)
    (rules : list ValidationRuleSettings) :
  Forall (fun rule => truthy_str (type rule) = false ->
                      is_Some (internal validationRules !! key rule)) rules ->
  exists entries,
    mapM (toValidator validationRules) rules
      = (warning <$> filter (fun rule => unresolvable validationRules rule = true) rules,
         Normal entries).
Proof.
  induction 1 as [|rule rules Hrule _ [entries IH]]; [by eexists|].
  destruct (toValidator_found _ _ Hrule) as [entry Hentry].
  exists (entry :: entries). simpl. unfold bind. rewrite Hentry, IH. simpl.
  rewrite app_nil_r.
  destruct (unresolvable validationRules rule) eqn:Hun.
  - by rewrite filter_cons_True.
  - rewrite filter_cons_False by (by rewrite Hun). done.
Qed.

Lemma mapM_toValidator_normal (validationRules : FormViewerValidationRules)
    (rules : list ValidationRuleSettings) :
  forall out entries,
    mapM (toValidator validationRules) rules = (out, Normal entries) ->
    Forall (fun rule => truthy_str (type rule) = false ->
                        is_Some (internal validationRules !! key rule)) rules.
Proof.
  induction rules as [|rule rules IH]; intros out entries; simpl; [by constructor|].
  unfold bind.
  destruct (toValidator validationRules rule) as [o [entry|e]] eqn:Hentry; [|discriminate].
  destruct (mapM _ rules) as [o' [entries'|e]] eqn:Hrest; simpl; [|discriminate].
  intros _. constructor; [|by eapply IH].
  intros Htype. destruct (internal validationRules !! key rule) eqn:Hkey; [done|].
  unfold toValidator in Hentry. rewrite Htype, Hkey in Hentry. discriminate.
Qed.

Lemma parse_rules sort (validationRules : FormViewerValidationRules)
    (schema : BoundValueSchema) (rules : list ValidationRuleSettings) :
  validations schema = Some rules -> rules <> [] ->
  parse sort validationRules (Some schema) =
    bind (mapM (toValidator validationRules) (sort byPriority rules))
         (fun resolved => ret (Some resolved)).
Proof.
  intros Hrules Hne. unfold parse. rewrite Hrules. by destruct rules.
Qed.

(** X1.  Resolution returns a function exactly when every rule without a
    (truthy) type has its key in the built-in registry; rules with a type
    never make it throw. *)
Theorem resolution_returns_iff sort needValidate
    (validationRules : FormViewerValidationRules) (schema : BoundValueSchema)
    (rules : list ValidationRuleSettings) :
  (forall l, sort byPriority l ≡ₚ l) ->
  validations schema = Some rules ->
  Forall (fun rule => truthy_str (type rule) = false ->
                      is_Some (internal validationRules !! key rule)) rules
  <-> exists out f,
        validatorsResolver sort needValidate validationRules (Some schema)
          = (out, Normal f).
Proof.
  intros Hperm Hrules.
  destruct (decide (rules = [])) as [->|Hne].
  { split; [|by constructor]. intros _.
    unfold validatorsResolver, parse. rewrite Hrules. by eexists _, _. }
  unfold validatorsResolver. rewrite (parse_rules _ _ _ _ Hrules Hne). split.
  - intros Hall.
    assert (Forall (fun rule => truthy_str (type rule) = false ->
                                is_Some (internal validationRules !! key rule))
                   (sort byPriority rules)) as Hsorted by (by rewrite Hperm).
    destruct (mapM_toValidator_found _ _ Hsorted) as [entries Hmap].
    unfold bind. rewrite Hmap. simpl. by eexists _, _.
  - intros (out & f & Hrun). unfold bind in Hrun.
    destruct (mapM _ _) as [o [entries|e]] eqn:Hmap; simpl in Hrun; [|discriminate].
    rewrite <- (Hperm rules). by eapply mapM_toValidator_normal.
Qed.

Lemma resolution_returns_iff_witness :
  exists out f,
    validatorsResolver ArrayTimSort always strict
      (Some (schemaOf [rule "required"; typed "phone" "custom"]))
      = (out, Normal f).
Proof.
  apply (resolution_returns_iff ArrayTimSort always strict
           (schemaOf [rule "required"; typed "phone" "custom"])
           [rule "required"; typed "phone" "custom"]).
  - intros l. apply ArraySortFacts.ArrayTimSort_perm.
  - reflexivity.
  - repeat constructor; [by eexists | discriminate].
Defined.



(** *** Where results come from *)


Lemma failure_settings (c : Invocation) (r : ValidationResult) :
  failure c = Some r -> result_settings r = settings (callee c).
Proof.
  unfold failure. destruct (answer c) as [| |[|]|n|text|ref]; by intros [= <-].
Qed.




Lemma due_sublist needValidate value store getFormData
    (validators : list ValidatorWithSettings) :
  forall n,
    sublist (callee <$> due needValidate value store getFormData n validators)
            validators.
Proof.
  induction validators as [|entry rest IH]; intros n; simpl; [constructor|].
  destruct (needValidate _ _); simpl.
  - apply sublist_skip, IH.
  - apply sublist_cons, IH.
Qed.

Lemma failure_sublist (calls : list Invocation) :
  sublist (result_settings <$> omap failure calls)
          ((fun c => settings (callee c)) <$> calls).
Proof.
  induction calls as [|c calls IH]; simpl; [constructor|].
  destruct (failure c) as [r|] eqn:Hfail; simpl.
  - rewrite (failure_settings _ _ Hfail). by apply sublist_skip.
  - by apply sublist_cons.
Qed.

(** X4.  The results of a produced function follow the pipeline: their rules
    form a subsequence of the priority-sorted rule list, so a rule is
    reported at most once per occurrence and never ahead of a rule that
    precedes it; likewise for the calls made. *)
Theorem results_follow_pipeline sort needValidate
    (validationRules : FormViewerValidationRules) (schema : BoundValueSchema)
    (rules : list ValidationRuleSettings)
    (out : list string) (f : ResolvedValidator)
    (value store : JsVal) (getFormData : FormDataSource)
    (results : list ValidationResult) (calls : list Invocation) :
  validations schema = Some rules ->
  validatorsResolver sort needValidate validationRules (Some schema) = (out, Normal f) ->
  f value store getFormData = (Some results, calls) ->
  sublist (result_settings <$> results) ((fun c => settings (callee c)) <$> calls) /\
  sublist ((fun c => settings (callee c)) <$> calls) (sort byPriority rules).
Proof.
  intros Hrules (validators & Hparse & ->)%validatorsResolver_normal Hrun.
  destruct validators as [validators|]; [|discriminate].
  rewrite resolved_due in Hrun. injection Hrun as <- <-.
  split; [apply failure_sublist|].
  assert (rules <> []) as Hne.
  { intros ->. unfold parse in Hparse. rewrite Hrules in Hparse. discriminate. }
  destruct (parse_resolves _ _ _ _ _ _ Hrules Hne Hparse) as (resolved & [= <-] & Hall).
  rewrite <- (resolved_settings _ _ _ Hall).
  rewrite (list_fmap_compose callee settings).
  apply fmap_sublist, due_sublist.
Qed.

Lemma results_follow_pipeline_witness :
  exists out f results calls,
    validatorsResolver ArrayTimSort always strict
      (Some (schemaOf [rule "required"; typed "phone" "custom"])) = (out, Normal f) /\
    f (JStr "") JUndefined None = (Some results, calls) /\
    sublist (result_settings <$> results) ((fun c => settings (callee c)) <$> calls) /\
    sublist ((fun c => settings (callee c)) <$> calls)
            (ArrayTimSort byPriority [rule "required"; typed "phone" "custom"]).
Proof.
  assert (exists out f results calls,
            validatorsResolver ArrayTimSort always strict
              (Some (schemaOf [rule "required"; typed "phone" "custom"]))
            = (out, Normal f) /\
            f (JStr "") JUndefined None = (Some results, calls))
    as (out & f & results & calls & Hres & Hrun).
  { eexists _, _, _, _. split; vm_compute; reflexivity. }
  exists out, f, results, calls.
  split; [exact Hres|]. split; [exact Hrun|].
  apply (results_follow_pipeline ArrayTimSort always strict
           (schemaOf [rule "required"; typed "phone" "custom"])
           [rule "required"; typed "phone" "custom"]
           out f (JStr "") JUndefined None results calls eq_refl Hres Hrun).
Defined.

Lemma taken_count needValidate (value store : JsVal) (getFormData : FormDataSource)
    (validators : list ValidatorWithSettings) :
  forall n,
    taken needValidate getFormData n validators
      = (n + length validators
         + length (due needValidate value store getFormData n validators))%nat.
Proof.
  induction validators as [|entry rest IH]; intros n; simpl; [lia|].
  destruct (needValidate _ _); rewrite IH; simpl; lia.
Qed.

(** X5.  A pass reads the form data once for every rule of the pipeline and
    once more for every validator it calls: [getFormData] is invoked
    (rules + calls) times, and at most twice per rule. *)
Theorem form_data_reads needValidate (value store : JsVal)
    (getFormData : FormDataSource) (validators : list ValidatorWithSettings) :
  let p := evaluate needValidate value store getFormData validators start in
  snapshots p = (length validators + length (invocations p))%nat /\
  (snapshots p <= 2 * length validators)%nat.
Proof.
  intros p. subst p. rewrite evaluate_due. simpl.
  rewrite (taken_count needValidate value store).
  split; [lia|].
  pose proof (sublist_length _ _ (due_sublist needValidate value store getFormData
                                    validators 0)) as Hlen.
  rewrite length_fmap in Hlen. lia.
Qed.

End ResolverMore.

(** ** What the priority comparator achieves under each sorting strategy *)

Module PriorityOrder.
Import ArraySort Resolver Samples Diagnostics.

Lemma byPriority_negative (a b : ValidationRuleSettings) :
  (byPriority a b <? 0) = isCode b.
Proof.
  unfold byPriority, isCode.
  destruct (String.eqb (key b) "code"); [done|].
  by destruct (String.eqb (key b) "required").
Qed.

Lemma byPriority_positive (a b : ValidationRuleSettings) :
  (0 <? byPriority a b) = isRequired b.
Proof.
  unfold byPriority, isRequired.
  destruct (String.eqb (key b) "code") eqn:Hcode.
  - apply String.eqb_eq in Hcode. by rewrite Hcode.
  - by destruct (String.eqb (key b) "required").
Qed.

(** *** Plain insertion *)

Lemma insertBackwards_byPriority (sortedRev : list ValidationRuleSettings)
    (element : ValidationRuleSettings) :
  insertBackwards byPriority sortedRev element
    = if isRequired element then sortedRev ++ [element] else element :: sortedRev.
Proof.
  induction sortedRev as [|tmp before IH]; simpl.
  - by destruct (isRequired element).
  - rewrite byPriority_positive, IH. by destruct (isRequired element).
Qed.

Lemma fold_insertBackwards (array : list ValidationRuleSettings) :
  forall acc,
    fold_left (insertBackwards byPriority) array acc
      = rev (List.filter (fun r => negb (isRequired r)) array)
          ++ acc ++ List.filter isRequired array.
Proof.
  induction array as [|element array IH]; intros acc; simpl.
  - by rewrite app_nil_r.
  - rewrite IH, insertBackwards_byPriority.
    destruct (isRequired element); simpl.
    + by rewrite <- !app_assoc.
    + by rewrite <- !app_assoc.
Qed.

(** X7.  Sorted by plain insertion (the comparator receiving the earlier
    element first), the rules keyed ["required"] come first, last one
    foremost, and all the other rules follow in schema order: a ["code"] rule
    is not moved to the end. *)
Theorem insertion_sort_promotes_required (rules : list ValidationRuleSettings) :
  (length rules <= 10)%nat ->
  InsertionSort byPriority rules
    = rev (List.filter isRequired rules)
        ++ List.filter (fun r => negb (isRequired r)) rules.
Proof.
  intros _. unfold InsertionSort.
  rewrite fold_insertBackwards. simpl.
  by rewrite rev_app_distr, rev_involutive.
Qed.

Lemma insertion_sort_promotes_required_witness :
  (length [rule "code"; rule "minLength"; rule "required"] <= 10)%nat /\
  InsertionSort byPriority [rule "code"; rule "minLength"; rule "required"]
    = [rule "required"; rule "code"; rule "minLength"].
Proof.
  split; [simpl; lia|].
  apply (insertion_sort_promotes_required
           [rule "code"; rule "minLength"; rule "required"]).
  simpl; lia.
Defined.

(** *** Binary insertion *)

Lemma codeLast_snoc (rules : list ValidationRuleSettings) (r : ValidationRuleSettings) :
  codeLast (rules ++ [r])
    = List.filter (fun r => negb (isCode r)) rules
        ++ r :: rev (List.filter isCode rules).
Proof.
  unfold codeLast. rewrite !List.filter_app. simpl.
  destruct (isCode r); simpl.
  - rewrite app_nil_r, rev_app_distr. reflexivity.
  - rewrite app_nil_r, <- app_assoc. reflexivity.
Qed.

Lemma extendRun_ascending (rest : list ValidationRuleSettings) :
  forall previous,
    codeLast (previous :: (extendRun byPriority false previous rest).1)
      = previous :: (extendRun byPriority false previous rest).1.
Proof.
  induction rest as [|current rest IH]; intros previous; simpl.
  - unfold codeLast. simpl. by destruct (isCode previous).
  - rewrite byPriority_negative.
    destruct (isCode previous) eqn:Hprev; simpl.
    + unfold codeLast. simpl. by rewrite Hprev.
    + specialize (IH current).
      destruct (extendRun byPriority false current rest) as [run remaining].
      simpl in *. unfold codeLast in *. simpl in *. rewrite Hprev. simpl.
      by rewrite IH.
Qed.

Lemma extendRun_descending (rest : list ValidationRuleSettings) :
  forall previous,
    rev (previous :: (extendRun byPriority true previous rest).1)
      = codeLast (previous :: (extendRun byPriority true previous rest).1).
Proof.
  induction rest as [|current rest IH]; intros previous; simpl.
  - unfold codeLast. simpl. by destruct (isCode previous).
  - assert ((0 <=? byPriority current previous) = negb (isCode previous)) as ->.
    { rewrite <- byPriority_negative with (a := current).
      destruct (byPriority current previous <? 0) eqn:Hlt; simpl; lia. }
    destruct (isCode previous) eqn:Hprev; simpl.
    + specialize (IH current).
      destruct (extendRun byPriority true current rest) as [run remaining].
      simpl in *. rewrite IH. unfold codeLast. simpl. rewrite Hprev. simpl.
      by rewrite <- app_assoc.
    + unfold codeLast. simpl. by rewrite Hprev.
Qed.

Lemma CountAndMakeRun_codeLast (work : list ValidationRuleSettings) :
  exists consumed,
    work = consumed ++ (CountAndMakeRun byPriority work).2 /\
    (CountAndMakeRun byPriority work).1 = codeLast consumed.
Proof.
  destruct work as [|high [|low rest]].
  - by exists [].
  - exists [high]. split; [done|]. unfold codeLast. simpl. by destruct (isCode high).
  - simpl. rewrite byPriority_negative.
    pose proof (ArraySortFacts.extendRun_split byPriority (isCode high) rest low) as Hsplit.
    pose proof (extendRun_ascending rest low) as Hasc.
    pose proof (extendRun_descending rest low) as Hdesc.
    destruct (isCode high) eqn:Hhigh;
      destruct (extendRun byPriority _ low rest) as [run remaining]; simpl in *;
      exists (high :: low :: run); (split; [by rewrite <- Hsplit|]).
    + rewrite Hdesc. unfold codeLast. simpl. rewrite Hhigh. simpl.
      by rewrite <- app_assoc.
    + rewrite <- Hasc at 1. unfold codeLast. simpl. by rewrite Hhigh.
Qed.

Lemma searchSlot_boundary (pivot : ValidationRuleSettings)
    (others codes : list ValidationRuleSettings) :
  Forall (fun r => isCode r = false) others ->
  Forall (fun r => isCode r = true) codes ->
  forall rounds left right,
    (left <= length others <= right)%nat ->
    (right <= length (others ++ codes))%nat ->
    (right - left < rounds)%nat ->
    searchSlot byPriority rounds (others ++ codes) pivot left right = length others.
Proof.
  intros Hothers Hcodes.
  induction rounds as [|rounds IH]; intros left right Hbounds Hright Hfuel; [lia|].
  cbn [searchSlot]. destruct (left <? right)%nat eqn:Hlt.
  - apply Nat.ltb_lt in Hlt. cbv zeta.
    set (mid := (left + (right - left) / 2)%nat).
    assert (left <= mid < right)%nat as Hmid.
    { unfold mid. pose proof (Nat.div_lt (right - left) 2). lia. }
    destruct ((others ++ codes) !! mid) as [midElement|] eqn:Hlookup.
    + rewrite byPriority_negative.
      destruct (decide (mid < length others)%nat) as [Hin|Hout].
      * rewrite lookup_app_l in Hlookup by done.
        rewrite Forall_forall in Hothers.
        rewrite (Hothers midElement) by (by eapply list_elem_of_lookup_2).
        apply IH; lia.
      * rewrite lookup_app_r in Hlookup by lia.
        rewrite Forall_forall in Hcodes.
        rewrite (Hcodes midElement) by (by eapply list_elem_of_lookup_2).
        apply IH; lia.
    + apply lookup_ge_None in Hlookup. lia.
  - apply Nat.ltb_ge in Hlt. lia.
Qed.

Lemma filter_all_true {A} (f : A -> bool) (l : list A) :
  Forall (fun x => f x = true) (List.filter f l).
Proof.
  induction l as [|a l IH]; simpl; [constructor|].
  destruct (f a) eqn:Hfa; [by constructor|done].
Qed.

Lemma BinaryInsertionSort_codeLast (rest : list ValidationRuleSettings) :
  forall consumed,
    BinaryInsertionSort byPriority (codeLast consumed) rest = codeLast (consumed ++ rest).
Proof.
  unfold BinaryInsertionSort.
  induction rest as [|pivot rest IH]; intros consumed; cbn [fold_left].
  - rewrite app_nil_r. reflexivity.
  - set (others := List.filter (fun r => negb (isCode r)) consumed).
    set (codes := rev (List.filter isCode consumed)).
    assert (Forall (fun r => isCode r = false) others) as Hothers.
    { eapply Forall_impl; [apply filter_all_true|].
      intros r Hr. simpl in Hr. by destruct (isCode r). }
    assert (Forall (fun r => isCode r = true) codes) as Hcodes.
    { rewrite Forall_forall. intros r Hr%list_elem_of_In%in_rev.
      by apply filter_In in Hr as [_ ?]. }
    replace (codeLast consumed) with (others ++ codes) by reflexivity.
    rewrite (searchSlot_boundary pivot others codes Hothers Hcodes);
      [|rewrite ?length_app; lia ..].
    unfold insertAt. rewrite take_app_length, drop_app_length.
    unfold others, codes. rewrite <- codeLast_snoc, IH.
    rewrite <- app_assoc. reflexivity.
Qed.

(** X6.  Sorted by binary insertion (the comparator receiving the later
    element first), the rules not keyed ["code"] keep their schema order,
    ["required"] included, and the ["code"] rules follow them, last one
    foremost. *)
Theorem binary_insertion_moves_code_last (rules : list ValidationRuleSettings) :
  (length rules < 64)%nat ->
  ArrayTimSort byPriority rules
    = List.filter (fun r => negb (isCode r)) rules ++ rev (List.filter isCode rules).
Proof.
  intros _. fold (codeLast rules). unfold ArrayTimSort.
  destruct (length rules <? 2)%nat eqn:Hshort.
  - apply Nat.ltb_lt in Hshort.
    destruct rules as [|r [|r' rules]]; simpl in Hshort; try lia; [done|].
    unfold codeLast. simpl. by destruct (isCode r).
  - destruct (CountAndMakeRun_codeLast rules) as (consumed & Hwork & Hrun).
    destruct (CountAndMakeRun byPriority rules) as [run rest]; simpl in *.
    rewrite Hrun, BinaryInsertionSort_codeLast. by rewrite <- Hwork.
Qed.

Lemma binary_insertion_moves_code_last_witness :
  (length [rule "code"; rule "minLength"; rule "required"] < 64)%nat /\
  ArrayTimSort byPriority [rule "code"; rule "minLength"; rule "required"]
    = [rule "minLength"; rule "required"; rule "code"].
Proof.
  split; [simpl; lia|].
  apply (binary_insertion_moves_code_last
           [rule "code"; rule "minLength"; rule "required"]).
  simpl; lia.
Defined.

End PriorityOrder.

(** ** More on the reactive field container *)

Module FieldMore.
Import SimpleField FieldSamples FieldOps SimpleFieldFacts.

Lemma bind_update {A} (g : Field -> Field) (k : unit -> M A) (w : World) :
  bind (update g) k w
    = k tt (mkWorld (g (this w)) (created w) (autorunActive w) (reactionActive w)
                    (tracking w) (log w)).
Proof. reflexivity. Qed.

Lemma nullish_again (a d : JsVal) : nullish (nullish a d) d = nullish a d.
Proof. destruct a; simpl; try reflexivity; by destruct d. Qed.

(** *** Seeding *)

(** X8.  A constructed field holds the computed value when its property is
    computed and the calculation is not deferred; in every other case, a
    deferred computed field included, it holds the first of the initial data,
    the store's property value and the model's default that is neither
    [undefined] nor [null] (the default itself when all are). *)
Theorem construction_seeds_value (isComputedProperty : option ComponentProperty -> bool)
    (p : Params) (defer : bool) (w : World) :
  new isComputedProperty p defer = (Normal tt, w) ->
  let data := componentData p in
  let k := template (model_valued (model data)) in
  value (this w) =
    if isComputedProperty (props (store data) !! k) && negb defer
    then (calculateValue p (store data) k).2
    else nullish (getInitialData p tt)
           (nullish (match props (store data) !! k with
                     | Some property => prop_value property
                     | None => JUndefined
                     end)
                    (match defaultProps (model data) with
                     | Some defaults => default JUndefined (defaults !! k)
                     | None => JUndefined
                     end)).
Proof.
  intros Hnew data k.
  destruct (truthy_str (model_valued (model (componentData p)))) eqn:Hkey;
    [destruct (truthy_str (model_valueType (model (componentData p)))) eqn:Htype|].
  - destruct (new_wired isComputedProperty p defer Hkey Htype)
      as (w' & Hnew' & _ & Hvalue & _).
    assert (w' = w) as -> by congruence.
    rewrite Hvalue. unfold seedOf, isComputed, computedValue, initialDataValue,
      initialValue, defaultValue, boundKey, componentStore, this_model.
    cbn [blank this set_binding params valued deferFieldCalculation].
    fold data. fold k.
    destruct (isComputedProperty (props (store data) !! k)), defer; reflexivity.
  - destruct (new_throws isComputedProperty p defer (or_intror Htype)) as [e He].
    congruence.
  - destruct (new_throws isComputedProperty p defer (or_introl Hkey)) as [e He].
    congruence.
Qed.

Lemma construction_seeds_value_witness :
  new literal (fieldFor (Some "name") (Some "string")) false = (Normal tt, nameField) /\
  value (this nameField) = JUndefined.
Proof.
  assert (new literal (fieldFor (Some "name") (Some "string")) false
          = (Normal tt, nameField)) as Hnew by (vm_compute; reflexivity).
  split; [exact Hnew|].
  apply (construction_seeds_value literal (fieldFor (Some "name") (Some "string"))
           false nameField Hnew).
Defined.

(** *** The lifetime of validators *)

Lemma teardowns_app (id : nat) (events events' : list Event) :
  teardowns id (events ++ events')
    = (teardowns id events + teardowns id events')%nat.
Proof. unfold teardowns. by rewrite filter_app, length_app. Qed.

Lemma teardowns_rerun (id n : nat) :
  teardowns id [ValidatorCreated (S n) true; ValidatorAssigned (S n);
                ValidatorDisposed n false]
    = if decide (id = n) then 1%nat else 0%nat.
Proof.
  unfold teardowns.
  rewrite filter_cons_False by (by intros [t ?]).
  rewrite filter_cons_False by (by intros [t ?]).
  destruct (decide (id = n)) as [->|Hne].
  - rewrite filter_cons_True by (by exists false). done.
  - rewrite filter_cons_False by (intros [t [= ?]]; done). done.
Qed.

Lemma reruns_log (n : nat) (w : World) :
  Wired 0 w ->
  log (reruns (S n) w)
    = log (reruns n w) ++ [ValidatorCreated (S n) true; ValidatorAssigned (S n);
                           ValidatorDisposed n false].
Proof.
  intros Hw.
  destruct (rerun_wired n _ (reruns_wired n w Hw)) as (w' & Hrun & _ & Hlog).
  simpl. unfold after. by rewrite Hrun.
Qed.

(** X9.  However often the [setValidator] autorun has run, every validator it
    replaced has had [dispose()] called exactly once, and the current one not
    at all. *)
Theorem replaced_validators_disposed_once
    (isComputedProperty : option ComponentProperty -> bool)
    (p : Params) (defer : bool) (w0 : World) (n : nat) :
  new isComputedProperty p defer = (Normal tt, w0) ->
  forall id,
    teardowns id (log (reruns n w0)) = if decide (id < n)%nat then 1%nat else 0%nat.
Proof.
  intros Hnew id.
  pose proof (new_normal_wired isComputedProperty p defer w0 Hnew) as Hw.
  induction n as [|n IH].
  - destruct (truthy_str (model_valued (model (componentData p)))) eqn:Hkey;
      [destruct (truthy_str (model_valueType (model (componentData p)))) eqn:Htype|].
    + destruct (new_wired isComputedProperty p defer Hkey Htype)
        as (w' & Hnew' & _ & _ & _ & _ & Hlog).
      assert (w' = w0) as -> by congruence.
      simpl. rewrite Hlog. unfold teardowns.
      repeat (rewrite filter_cons_False by (by intros [t ?])).
      by destruct (decide (id < 0)%nat); [lia|].
    + destruct (new_throws isComputedProperty p defer (or_intror Htype)) as [e He].
      congruence.
    + destruct (new_throws isComputedProperty p defer (or_introl Hkey)) as [e He].
      congruence.
  - rewrite (reruns_log n w0 Hw), teardowns_app, IH, teardowns_rerun.
    repeat case_decide; lia.
Qed.

Lemma replaced_validators_disposed_once_witness :
  new literal (fieldFor (Some "name") (Some "string")) false = (Normal tt, nameField) /\
  teardowns 0 (log (reruns 2 nameField)) = 1%nat.
Proof.
  assert (new literal (fieldFor (Some "name") (Some "string")) false
          = (Normal tt, nameField)) as Hnew by (vm_compute; reflexivity).
  split; [exact Hnew|].
  apply (replaced_validators_disposed_once literal
           (fieldFor (Some "name") (Some "string")) false nameField 2 Hnew 0%nat).
Defined.

(** X10.  After [dispose()] no validator the field ever created is left
    undisposed, however often the validator was replaced before. *)
Theorem dispose_leaves_no_validator
    (isComputedProperty : option ComponentProperty -> bool)
    (p : Params) (defer : bool) (w0 : World) (n : nat) :
  new isComputedProperty p defer = (Normal tt, w0) ->
  live (log (after dispose (reruns n w0))) = [].
Proof.
  intros Hnew.
  pose proof (reruns_wired n w0 (new_normal_wired isComputedProperty p defer w0 Hnew))
    as Hw.
  destruct (dispose_wired n _ Hw) as (w1 & w2 & Hrun & Hlog & _).
  unfold after. rewrite Hrun. cbn [snd]. rewrite Hlog, live_app.
  rewrite (wired_live _ _ Hw). cbn [fold_left].
  by rewrite filter_cons_False by (intros ?; done).
Qed.

Lemma dispose_leaves_no_validator_witness :
  new literal (fieldFor (Some "name") (Some "string")) false = (Normal tt, nameField) /\
  live (log (after dispose (reruns 3 nameField))) = [].
Proof.
  assert (new literal (fieldFor (Some "name") (Some "string")) false
          = (Normal tt, nameField)) as Hnew by (vm_compute; reflexivity).
  split; [exact Hnew|].
  apply (dispose_leaves_no_validator literal
           (fieldFor (Some "name") (Some "string")) false nameField 3 Hnew).
Defined.

(** *** The other methods *)

Section Methods.
Variable isComputedProperty : option ComponentProperty -> bool.
Variable needRender : ComponentStore -> JsVal -> bool.
Variable autoConvertField : JsVal -> option string -> JsVal.
Variable autoValidate : ComponentStore -> option bool.
Variables (hasSend hasValidate hasResult : nat -> bool).
Variable resultOf : nat -> JsVal -> option (list Resolver.ValidationResult).

(** X11.  [reset()] puts the field back to its initial value (the store's
    property value, or the model's default when that is [undefined] or
    [null]) and clears the error; it leaves [touched], the validator and the
    subscriptions alone and calls nothing. *)
Theorem reset_restores_initial_value (w : World) :
  exists w',
    reset w = (Normal tt, w') /\
    value (this w') = initialValue (this w) /\
    error (this w') = JUndefined /\
    touched (this w') = touched (this w) /\
    dataValidator (this w') = dataValidator (this w) /\
    log w' = log w /\
    autorunActive w' = autorunActive w /\ reactionActive w' = reactionActive w.
Proof.
  unfold reset, innerSetValue, clearError.
  rewrite SimpleFieldFacts.bind_get, bind_update. unfold update.
  eexists. split; [reflexivity|].
  cbn [this value error touched dataValidator log autorunActive reactionActive
       set_value set_error].
  unfold initialValue at 1. rewrite nullish_again. done.
Qed.

(** X12.  [clear()] puts the field back to the model's default, marks it
    untouched and clears the error, whatever the store or the initial data
    hold; it calls nothing. *)
Theorem clear_restores_default (w : World) :
  exists w',
    clear w = (Normal tt, w') /\
    value (this w') = defaultValue (this w) /\
    touched (this w') = false /\
    error (this w') = JUndefined /\
    dataValidator (this w') = dataValidator (this w) /\
    log w' = log w.
Proof.
  unfold clear, innerSetValue, clearError.
  rewrite SimpleFieldFacts.bind_get, !bind_update. unfold update.
  eexists. split; [reflexivity|]. done.
Qed.



(** X15.  On a field that need not be validated, [validate()] clears the
    error and [getValidationResult()] resolves to [undefined], neither
    consulting the validator.  Otherwise [validate()] hands the current value
    to the validator and touches nothing itself, and [getValidationResult()]
    resolves to the messages of the validator's results, one per result and
    in their order ([undefined] when the validator gives none). *)
Theorem validation_is_gated (w : World) :
  let f := this w in
  (needValidate needRender f = false ->
   (exists w', validate needRender hasValidate w = (Normal [], w') /\
               error (this w') = JUndefined /\ value (this w') = value f) /\
   getValidationResult needRender hasResult resultOf w = (Normal ([], None), w))
  /\
  (needValidate needRender f = true ->
   validate needRender hasValidate w
     = (Normal (callIfAny hasValidate Validate f), w) /\
   exists messages,
     getValidationResult needRender hasResult resultOf w
       = (Normal (callIfAny hasResult GetValidationResult f, messages), w) /\
     forall id results,
       dataValidator f = Some id -> hasResult id = true ->
       resultOf id (value f) = Some results ->
       messages = Some (Resolver.message <$> results)).
Proof.
  intros f. subst f.
  unfold validate, getValidationResult, clearError.
  rewrite !SimpleFieldFacts.bind_get.
  split; intros ->; cbn [negb].
  - split; [|reflexivity].
    rewrite bind_update. eexists. split; [reflexivity|]. split; reflexivity.
  - split; [reflexivity|].
    eexists. split; [reflexivity|].
    intros id results -> -> ->. reflexivity.
Qed.

End Methods.



Lemma validation_is_gated_witness :
  needValidate (fun _ _ => false) (this nameField) = false /\
  getValidationResult (fun _ _ => false) (fun _ => true) (fun _ _ => Some []) nameField
    = (Normal ([], None), nameField).
Proof.
  split; [reflexivity|].
  apply (validation_is_gated (fun _ _ => false) (fun _ => true) (fun _ => true)
           (fun _ _ => Some []) nameField).
  reflexivity.
Defined.

End FieldMore.

(** ** The checkbox cell *)

Module CheckCellFacts.
Import CheckCell.

(** X16.  After [handleChange] the checkbox of the cell shows the state it was
    given, the checkboxes of the other columns of the row show what they
    showed before, and [onChange], when given, has been told the state, the
    column and the row once; a cell whose row has no entry for the column, or
    [null] or [undefined], shows an unchecked box. *)
Theorem handleChange_shows_state (rowData : gmap string JsVal) (dataKey : string)
    (rowIndex : nat) (onChange checked : bool) :
  let after := handleChange rowData dataKey rowIndex onChange checked in
  checkedProp after.1 dataKey = JBool checked /\
  (forall other, other <> dataKey ->
     checkedProp after.1 other = checkedProp rowData other) /\
  after.2 = (if onChange then [(checked, dataKey, rowIndex)] else []) /\
  (rowData !! dataKey = None \/ rowData !! dataKey = Some JNull \/
   rowData !! dataKey = Some JUndefined ->
   checkedProp rowData dataKey = JBool false).
Proof.
  unfold handleChange, checkedProp. simpl. repeat split.
  - by rewrite lookup_insert_eq.
  - intros other Hother. by rewrite lookup_insert_ne.
  - intros [-> | [-> | ->]]; reflexivity.
Qed.

Lemma handleChange_shows_state_witness :
  checkedProp (handleChange {[ "active" := JNull ]} "active" 0 true true).1 "active"
    = JBool true.
Proof.
  apply (handleChange_shows_state {[ "active" := JNull ]} "active" 0 true true).
Defined.

End CheckCellFacts.
